(** * Loomi scraper engine: a shallow embedding of [scraper_engine.py]

    The development follows the source file top to bottom: the adaptive
    rate limiter, the environment probe, the two scraping strategies and
    the scrape manager.  Python floats are idealised as exact rationals
    ([Q]); Python integers are [Z]; sets of URLs are [gset string];
    everything the engine obtains from outside (HTTP responses, rendered
    pages, the extraction callback, the environment) is read from a
    [World] record, and everything it does to the outside (sleeping,
    requests, the messages it prints) is pushed on a trace of events. *)

From Stdlib Require Import QArith Lqa.
From stdpp Require Import gmap strings list sorting pretty.

(** ** Python values, exceptions and results *)

(** A scraped record is a [dict] from field names to values. *)
Definition Dict : Type := list (string * string).

(** The exception classes the engine tells apart; all of them derive from
    [Exception]. *)
Inductive exn : Type :=
  | ImportError
  | HTTPStatusError (status_code : Z)
  | TimeoutException
  | ZeroDivisionError
  | ValueError
  | OtherError (msg : string).

(** The outcome of a call that may raise. *)
Inductive res (A : Type) : Type :=
  | Ret (a : A)
  | Raise (e : exn).
Arguments Ret {A} a.
Arguments Raise {A} e.

Definition raises {A} (r : res A) : Prop :=
  match r with Ret _ => False | Raise _ => True end.

(** [max(a, b)] and [min(a, b)] on two arguments: the first one is kept
    unless the second is strictly larger (resp. smaller). *)
Definition Qlt_bool (a b : Q) : bool := negb (Qle_bool b a).

Definition py_max (a b : Q) : Q := if Qlt_bool a b then b else a.
Definition py_min (a b : Q) : Q := if Qlt_bool b a then b else a.

(** [a % b] on integers: floored, and an error on a zero divisor. *)
Definition py_mod (a b : Z) : res Z :=
  if (b =? 0)%Z then Raise ZeroDivisionError else Ret (a mod b)%Z.

(** [not xs] on a list. *)
Definition is_empty {A} (xs : list A) : bool :=
  match xs with
  | [] => true
  | _ :: _ => false
  end.

(** [bool(os.environ.get(key))] *)
Definition truthy (o : option string) : bool :=
  match o with
  | Some s => negb (String.eqb s "")
  | None => false
  end.

(** [sorted(urls)]: strings in code-point order. *)
Definition str_le (a b : string) : Prop := String.leb a b.

Definition sorted (X : gset string) : list string :=
  merge_sort str_le (elements X).

(** ** Strategies, events and the outside world *)

Inductive ScrapingStrategy : Type :=
  | RequestsStrategy (request_delay : Q)
  | PlaywrightStrategy (scroll_count : Z) (page_timeout : Z).

(** What the engine does to the outside world, most recent event first. *)
Inductive Event : Type :=
  | EvSleep (seconds : Q)              (* time.sleep(seconds) *)
  | EvWait (delay : Q)                 (* rate_limiter.wait(): delay plus jitter *)
  | EvGet (url : string)               (* client.get(url) *)
  | EvGoto (url : string)              (* page.goto(url) *)
  | EvLaunch                           (* the probe launches a browser *)
  | EvAttempt (s : ScrapingStrategy)   (* ">>> Attempting strategy" *)
  | EvCleanup (s : ScrapingStrategy)   (* strategy.cleanup() *)
  | EvNoStrategyMessage                (* _show_no_strategy_message() *)
  | EvFailureSummary                   (* _show_failure_summary() *)
  | EvSummary.                         (* _print_summary() *)

Definition Trace : Type := list Event.

(** The number of [rate_limiter.wait()] calls on a trace. *)
Fixpoint count_waits (tr : Trace) : nat :=
  match tr with
  | [] => 0
  | EvWait _ :: tr => S (count_waits tr)
  | _ :: tr => count_waits tr
  end.

(** The strategies whose attempt is on the trace, oldest first. *)
Definition attempts (tr : Trace) : list ScrapingStrategy :=
  omap (λ e, match e with EvAttempt s => Some s | _ => None end) (reverse tr).

(** [tr'] is [tr] with more recent events on top, none of which is the
    start of a strategy attempt. *)
Definition quiet (tr tr' : Trace) : Prop :=
  ∃ added, tr' = added ++ tr ∧ attempts added = [].

Record Response : Type := mkResponse {
  status_code : Z;
  text : string
}.

(** Everything the engine reads from outside.  The answers do not depend
    on when they are asked for. *)
Record World : Type := mkWorld {
  (* os.environ *)
  os_environ : gmap string string;
  (* [from playwright.sync_api import sync_playwright] binds the name, or
     raises: the exception, if any *)
  playwright_import : option exn;
  (* launching and closing a headless browser: the exception, if any *)
  firefox_launch : option exn;
  (* the product links a strategy finds on a listing page, or the exception
     raised while fetching and reading it *)
  listing : ScrapingStrategy → string → res (gset string);
  (* client.get(url) at the attempt-th try *)
  http_get : string → nat → res Response;
  (* browser start, navigation, settle delay and page.content() *)
  page_content : string → res string;
  (* extract_fn(html, soup, product_url, config) *)
  extract_fn : string → string → res (list Dict);
  (* the product_url cells of the rows readable in the output CSV, when
     the file exists *)
  output_csv : option (list string);
  (* main.standardize_record, which raises on a cell it cannot convert *)
  standardize_record : Dict → res Dict;
  (* when the pool's worker for a product finishes *)
  completion_time : string → nat;
  (* closing the browser session a strategy has started
     ([context.close()], [browser.close()], [playwright.stop()]): the
     exception, if any *)
  browser_close : option exn;
  (* print() of the messages of [run], which hold characters outside
     ASCII: the exception of a console that cannot encode them, if any *)
  console : option exn;
  (* client.close(): the exception, if any *)
  client_close : option exn
}.

(** The import binds the name. *)
Definition playwright_importable (w : World) : bool :=
  bool_decide (playwright_import w = None).

(** Whether the browser strategy under attempt has called
    [_ensure_browser]: its two scraping methods call it first, which is
    where the trace gets an [EvGoto]; every attempt is of a strategy
    object of its own, with no browser yet. *)
Fixpoint browser_started (tr : Trace) : bool :=
  match tr with
  | [] => false
  | EvGoto _ :: _ => true
  | EvAttempt _ :: _ => false
  | _ :: tr => browser_started tr
  end.

(** ** Adaptive rate limiter *)

Module RateLimiter.

Record AdaptiveRateLimiter : Type := mkLimiter {
  min_delay : Q;
  max_delay : Q;
  current_delay : Q;
  consecutive_successes : Z
}.

(** [AdaptiveRateLimiter.__init__] *)
Definition init (min_d max_d : Q) : AdaptiveRateLimiter :=
  {| min_delay := min_d; max_delay := max_d;
     current_delay := min_d; consecutive_successes := 0 |}.

(** [AdaptiveRateLimiter()] *)
Definition default : AdaptiveRateLimiter := init (3 # 10) 2.

Definition record_success (rl : AdaptiveRateLimiter) : AdaptiveRateLimiter :=
  let n := (consecutive_successes rl + 1)%Z in
  if (10 <=? n)%Z then
    {| min_delay := min_delay rl; max_delay := max_delay rl;
       current_delay := py_max (min_delay rl) (current_delay rl * (9 # 10));
       consecutive_successes := 0 |}
  else
    {| min_delay := min_delay rl; max_delay := max_delay rl;
       current_delay := current_delay rl;
       consecutive_successes := n |}.

Definition record_rate_limit (rl : AdaptiveRateLimiter) : AdaptiveRateLimiter :=
  {| min_delay := min_delay rl; max_delay := max_delay rl;
     current_delay := py_min (max_delay rl) (current_delay rl * 2);
     consecutive_successes := 0 |}.

Definition record_error (rl : AdaptiveRateLimiter) : AdaptiveRateLimiter :=
  {| min_delay := min_delay rl; max_delay := max_delay rl;
     current_delay := py_min (max_delay rl) (current_delay rl * (12 # 10));
     consecutive_successes := 0 |}.

(** [wait] reads the delay and sleeps for it plus a random jitter; the
    trace keeps the delay that was read.  The jitter lies between 0 and
    0.3 times the delay, so the sum is negative exactly when the delay
    is, and [time.sleep] raises ValueError on a negative duration. *)
Definition wait (rl : AdaptiveRateLimiter) (tr : Trace) : res unit * Trace :=
  if Qlt_bool (current_delay rl) 0 then (Raise ValueError, tr)
  else (Ret tt, EvWait (current_delay rl) :: tr).

Definition get_delay (rl : AdaptiveRateLimiter) : Q := current_delay rl.

(** The three mutating calls, and sequences of them. *)
Inductive Call : Type := Success | RateLimited | Error.

Definition call (rl : AdaptiveRateLimiter) (c : Call) : AdaptiveRateLimiter :=
  match c with
  | Success => record_success rl
  | RateLimited => record_rate_limit rl
  | Error => record_error rl
  end.

Definition calls (rl : AdaptiveRateLimiter) (cs : list Call) : AdaptiveRateLimiter :=
  fold_left call cs rl.

(** The states a governor built with the given bounds can be in. *)
Inductive reachable (min_d max_d : Q) : AdaptiveRateLimiter → Prop :=
  | reachable_init : reachable min_d max_d (init min_d max_d)
  | reachable_call rl c :
      reachable min_d max_d rl → reachable min_d max_d (call rl c).

Definition within_bounds (rl : AdaptiveRateLimiter) : Prop :=
  (min_delay rl <= current_delay rl)%Q ∧ (current_delay rl <= max_delay rl)%Q.

End RateLimiter.

(** ** Environment probe *)

Module Probe.

Record EnvironmentProbe : Type := mkProbe {
  _playwright_available : option bool;
  _browser_available : option bool
}.

(** [EnvironmentProbe.__init__] *)
Definition init : EnvironmentProbe :=
  {| _playwright_available := None; _browser_available := None |}.

Definition is_replit (w : World) : bool := truthy (os_environ w !! "REPL_ID").

Definition has_secret (w : World) (key : string) : bool :=
  truthy (os_environ w !! key).

Definition import_sync_playwright (w : World) : res unit :=
  match playwright_import w with
  | None => Ret tt
  | Some e => Raise e
  end.

Definition launch_and_close (w : World) : res unit :=
  match firefox_launch w with
  | None => Ret tt
  | Some e => Raise e
  end.

Definition playwright_available (w : World) (p : EnvironmentProbe)
  : res bool * EnvironmentProbe :=
  match _playwright_available p with
  | Some b => (Ret b, p)
  | None =>
      match import_sync_playwright w with
      | Ret _ =>
          (Ret true, {| _playwright_available := Some true;
                        _browser_available := _browser_available p |})
      | Raise ImportError =>
          (Ret false, {| _playwright_available := Some false;
                         _browser_available := _browser_available p |})
      | Raise e => (Raise e, p)
      end
  end.

Definition set_browser (p : EnvironmentProbe) (b : bool) : EnvironmentProbe :=
  {| _playwright_available := _playwright_available p;
     _browser_available := Some b |}.

Definition browser_available (w : World) (p : EnvironmentProbe) (tr : Trace)
  : res bool * EnvironmentProbe * Trace :=
  match _browser_available p with
  | Some b => (Ret b, p, tr)
  | None =>
      match playwright_available w p with
      | (Raise e, p1) => (Raise e, p1, tr)
      | (Ret false, p1) => (Ret false, set_browser p1 false, tr)
      | (Ret true, p1) =>
          if is_replit w then (Ret false, set_browser p1 false, tr)
          else
            (* try: import, launch, close; except Exception: False *)
            match import_sync_playwright w with
            | Raise _ => (Ret false, set_browser p1 false, tr)
            | Ret _ =>
                match launch_and_close w with
                | Ret _ => (Ret true, set_browser p1 true, EvLaunch :: tr)
                | Raise _ => (Ret false, set_browser p1 false, EvLaunch :: tr)
                end
            end
      end
  end.

(** The probes a process can hold: a fresh one, or one on which the two
    cached properties have been read any number of times. *)
Inductive reachable (w : World) : EnvironmentProbe → Prop :=
  | reachable_init : reachable w init
  | reachable_playwright p :
      reachable w p → reachable w (playwright_available w p).2
  | reachable_browser p tr :
      reachable w p → reachable w (browser_available w p tr).1.2.

(** The import binds the name or raises ImportError, the one exception
    [playwright_available] handles. *)
Definition import_guarded (w : World) : Prop :=
  ∀ e, playwright_import w = Some e → e = ImportError.

(** Whether a browser can be had in this world: the library imports, the
    process is not in Replit, and the launch goes through. *)
Definition launchable (w : World) : bool :=
  playwright_importable w && negb (is_replit w)
  && bool_decide (firefox_launch w = None).

(** What a cached answer says about the world it was computed in. *)
Definition cache_coherent (w : World) (p : EnvironmentProbe) : Prop :=
  (∀ b, _playwright_available p = Some b → b = playwright_importable w)
  ∧ (∀ b, _browser_available p = Some b → b = launchable w).

End Probe.

(** ** Scraping strategies *)

Module Strategy.
Import RateLimiter.

Definition name (s : ScrapingStrategy) : string :=
  match s with
  | RequestsStrategy _ => "requests"
  | PlaywrightStrategy _ _ => "playwright"
  end.

Definition requires_browser (s : ScrapingStrategy) : bool :=
  match s with
  | RequestsStrategy _ => false
  | PlaywrightStrategy _ _ => true
  end.

Definition supports (w : World) (s : ScrapingStrategy)
    (p : Probe.EnvironmentProbe) (tr : Trace)
  : res bool * Probe.EnvironmentProbe * Trace :=
  match s with
  | RequestsStrategy _ => (Ret true, p, tr)
  | PlaywrightStrategy _ _ => Probe.browser_available w p tr
  end.

(** [scrape_collection]: one listing page; a failure is logged and leaves
    the empty set.  Fetching the page, scrolling it in the browser and
    picking the product links out of it are the world's [listing]; the
    requests strategy sleeps [request_delay] after a page it could read. *)
Definition scrape_collection (w : World) (s : ScrapingStrategy)
    (collection_url : string) (tr : Trace) : gset string * Trace :=
  match s with
  | RequestsStrategy request_delay =>
      match listing w s collection_url with
      | Ret product_urls =>
          (product_urls, EvSleep request_delay :: EvGet collection_url :: tr)
      | Raise _ => (∅, EvGet collection_url :: tr)
      end
  | PlaywrightStrategy _ _ =>
      match listing w s collection_url with
      | Ret product_urls => (product_urls, EvGoto collection_url :: tr)
      | Raise _ => (∅, EvGoto collection_url :: tr)
      end
  end.

Definition max_retries : nat := 3.

(** [resp.raise_for_status()] *)
Definition raise_for_status (resp : Response) : res unit :=
  if ((200 <=? status_code resp) && (status_code resp <? 300))%Z
  then Ret tt
  else Raise (HTTPStatusError (status_code resp)).

(** How one turn of the retry loop ends. *)
Inductive Flow : Type :=
  | Return (records : list Dict)
  | Continue.

(** The [try] block of [RequestsStrategy.scrape_product]. *)
Definition requests_try (w : World) (product_url : string) (attempt : nat)
    (rl : AdaptiveRateLimiter) (tr : Trace)
  : res Flow * AdaptiveRateLimiter * Trace :=
  let tr := EvGet product_url :: tr in
  match http_get w product_url attempt with
  | Raise e => (Raise e, rl, tr)
  | Ret resp =>
      if (status_code resp =? 429)%Z then
        let rl := record_rate_limit rl in
        match wait rl tr with
        | (Raise e, tr) => (Raise e, rl, tr)
        | (Ret _, tr) =>
            if attempt <? max_retries - 1 then (Ret Continue, rl, tr)
            else (Ret (Return []), rl, tr)
        end
      else
        match raise_for_status resp with
        | Raise e => (Raise e, rl, tr)
        | Ret _ =>
            let rl := record_success rl in
            match extract_fn w (text resp) product_url with
            | Raise e => (Raise e, rl, tr)
            | Ret records =>
                (* Only wait if we got data (success) *)
                match records with
                | [] => (Ret (Return records), rl, tr)
                | _ :: _ =>
                    match wait rl tr with
                    | (Raise e, tr) => (Raise e, rl, tr)
                    | (Ret _, tr) => (Ret (Return records), rl, tr)
                    end
                end
            end
        end
  end.

(** Its [except] clauses, in the order they are written. *)
Definition requests_except (e : exn) (attempt : nat)
    (rl : AdaptiveRateLimiter) (tr : Trace)
  : Flow * AdaptiveRateLimiter * Trace :=
  match e with
  | HTTPStatusError code =>
      if (code =? 429)%Z then (Return [], record_rate_limit rl, tr)
      else if (500 <=? code)%Z && (attempt <? max_retries - 1) then
        (Continue, rl, EvSleep (inject_Z (2 ^ Z.of_nat attempt)) :: tr)
      else (Return [], record_error rl, tr)
  | TimeoutException =>
      if attempt <? max_retries - 1 then (Continue, rl, tr)
      else (Return [], rl, tr)
  | _ => (Return [], record_error rl, tr)
  end.

Definition requests_attempt (w : World) (product_url : string) (attempt : nat)
    (rl : AdaptiveRateLimiter) (tr : Trace)
  : Flow * AdaptiveRateLimiter * Trace :=
  match requests_try w product_url attempt rl tr with
  | (Ret f, rl, tr) => (f, rl, tr)
  | (Raise e, rl, tr) => requests_except e attempt rl tr
  end.

(** [for attempt in range(max_retries)], with [remaining] turns left;
    falling out of the loop returns the empty list. *)
Fixpoint requests_loop (w : World) (product_url : string)
    (attempt remaining : nat) (rl : AdaptiveRateLimiter) (tr : Trace)
  : list Dict * AdaptiveRateLimiter * Trace :=
  match remaining with
  | O => ([], rl, tr)
  | S remaining' =>
      match requests_attempt w product_url attempt rl tr with
      | (Return records, rl, tr) => (records, rl, tr)
      | (Continue, rl, tr) =>
          requests_loop w product_url (S attempt) remaining' rl tr
      end
  end.

(** [PlaywrightStrategy.scrape_product] *)
Definition playwright_scrape_product (w : World) (product_url : string)
    (rl : AdaptiveRateLimiter) (tr : Trace)
  : list Dict * AdaptiveRateLimiter * Trace :=
  let tr := EvGoto product_url :: tr in
  match page_content w product_url with
  | Raise _ => ([], rl, tr)
  | Ret html =>
      match extract_fn w html product_url with
      | Raise _ => ([], rl, tr)
      | Ret records =>
          match wait rl tr with
          | (Raise _, tr) => ([], rl, tr)
          | (Ret _, tr) => (records, rl, tr)
          end
      end
  end.

Definition scrape_product (w : World) (s : ScrapingStrategy)
    (product_url : string) (rl : AdaptiveRateLimiter) (tr : Trace)
  : list Dict * AdaptiveRateLimiter * Trace :=
  match s with
  | RequestsStrategy _ => requests_loop w product_url 0 max_retries rl tr
  | PlaywrightStrategy _ _ => playwright_scrape_product w product_url rl tr
  end.

End Strategy.

(** ** Scrape manager *)

Module Manager.
Import RateLimiter.

Record SiteProfile : Type := mkSite {
  site_name : string;
  key : string;
  base_url : string;
  collection_urls : list string;
  output_file : string;
  strategies : list ScrapingStrategy
}.

(** The fields of a [ScrapeManager], followed by the two things outside the
    object that its methods change: what the run has last written to the
    [.partial] file next to the output file, and the trace of events. *)
Record ScrapeManager : Type := mkManager {
  site : SiteProfile;
  max_workers : Z;
  skip_existing : bool;
  incremental : bool;
  save_interval : Z;
  env : Probe.EnvironmentProbe;
  rate_limiter : AdaptiveRateLimiter;
  all_records : list Dict;
  failed_products : Z;
  skipped_products : Z;
  strategy_used : option ScrapingStrategy;
  existing_urls : gset string;
  _products_processed : Z;
  partial_file : option (list Dict);
  trace : Trace
}.

(** [ScrapeManager.__init__] *)
Definition init (site_profile : SiteProfile) (workers : Z)
    (skip incr : bool) (interval : Z) : ScrapeManager :=
  {| site := site_profile; max_workers := workers; skip_existing := skip;
     incremental := incr; save_interval := interval;
     env := Probe.init; rate_limiter := RateLimiter.default;
     all_records := []; failed_products := 0; skipped_products := 0;
     strategy_used := None; existing_urls := ∅; _products_processed := 0;
     partial_file := None; trace := [] |}.

(** [ScrapeManager(site_profile, extract_fn)], as [main.run_with_manager]
    builds it. *)
Definition new (site_profile : SiteProfile) : ScrapeManager :=
  init site_profile 5 true true 25.

(** Assignments to one field of [self]. *)

Definition set_env (self : ScrapeManager) (p : Probe.EnvironmentProbe)
  : ScrapeManager :=
  {| site := site self; max_workers := max_workers self;
     skip_existing := skip_existing self; incremental := incremental self;
     save_interval := save_interval self; env := p;
     rate_limiter := rate_limiter self; all_records := all_records self;
     failed_products := failed_products self;
     skipped_products := skipped_products self;
     strategy_used := strategy_used self;
     existing_urls := existing_urls self;
     _products_processed := _products_processed self;
     partial_file := partial_file self; trace := trace self |}.

Definition set_rate_limiter (self : ScrapeManager) (rl : AdaptiveRateLimiter)
  : ScrapeManager :=
  {| site := site self; max_workers := max_workers self;
     skip_existing := skip_existing self; incremental := incremental self;
     save_interval := save_interval self; env := env self;
     rate_limiter := rl; all_records := all_records self;
     failed_products := failed_products self;
     skipped_products := skipped_products self;
     strategy_used := strategy_used self;
     existing_urls := existing_urls self;
     _products_processed := _products_processed self;
     partial_file := partial_file self; trace := trace self |}.

Definition set_all_records (self : ScrapeManager) (records : list Dict)
  : ScrapeManager :=
  {| site := site self; max_workers := max_workers self;
     skip_existing := skip_existing self; incremental := incremental self;
     save_interval := save_interval self; env := env self;
     rate_limiter := rate_limiter self; all_records := records;
     failed_products := failed_products self;
     skipped_products := skipped_products self;
     strategy_used := strategy_used self;
     existing_urls := existing_urls self;
     _products_processed := _products_processed self;
     partial_file := partial_file self; trace := trace self |}.

Definition set_failed_products (self : ScrapeManager) (x : Z)
  : ScrapeManager :=
  {| site := site self; max_workers := max_workers self;
     skip_existing := skip_existing self; incremental := incremental self;
     save_interval := save_interval self; env := env self;
     rate_limiter := rate_limiter self; all_records := all_records self;
     failed_products := x; skipped_products := skipped_products self;
     strategy_used := strategy_used self;
     existing_urls := existing_urls self;
     _products_processed := _products_processed self;
     partial_file := partial_file self; trace := trace self |}.

Definition set_skipped_products (self : ScrapeManager) (x : Z)
  : ScrapeManager :=
  {| site := site self; max_workers := max_workers self;
     skip_existing := skip_existing self; incremental := incremental self;
     save_interval := save_interval self; env := env self;
     rate_limiter := rate_limiter self; all_records := all_records self;
     failed_products := failed_products self; skipped_products := x;
     strategy_used := strategy_used self;
     existing_urls := existing_urls self;
     _products_processed := _products_processed self;
     partial_file := partial_file self; trace := trace self |}.

Definition set_strategy_used (self : ScrapeManager) (s : option ScrapingStrategy)
  : ScrapeManager :=
  {| site := site self; max_workers := max_workers self;
     skip_existing := skip_existing self; incremental := incremental self;
     save_interval := save_interval self; env := env self;
     rate_limiter := rate_limiter self; all_records := all_records self;
     failed_products := failed_products self;
     skipped_products := skipped_products self; strategy_used := s;
     existing_urls := existing_urls self;
     _products_processed := _products_processed self;
     partial_file := partial_file self; trace := trace self |}.

Definition set_existing_urls (self : ScrapeManager) (urls : gset string)
  : ScrapeManager :=
  {| site := site self; max_workers := max_workers self;
     skip_existing := skip_existing self; incremental := incremental self;
     save_interval := save_interval self; env := env self;
     rate_limiter := rate_limiter self; all_records := all_records self;
     failed_products := failed_products self;
     skipped_products := skipped_products self;
     strategy_used := strategy_used self; existing_urls := urls;
     _products_processed := _products_processed self;
     partial_file := partial_file self; trace := trace self |}.

Definition set_products_processed (self : ScrapeManager) (x : Z)
  : ScrapeManager :=
  {| site := site self; max_workers := max_workers self;
     skip_existing := skip_existing self; incremental := incremental self;
     save_interval := save_interval self; env := env self;
     rate_limiter := rate_limiter self; all_records := all_records self;
     failed_products := failed_products self;
     skipped_products := skipped_products self;
     strategy_used := strategy_used self;
     existing_urls := existing_urls self; _products_processed := x;
     partial_file := partial_file self; trace := trace self |}.

Definition set_partial_file (self : ScrapeManager) (content : option (list Dict))
  : ScrapeManager :=
  {| site := site self; max_workers := max_workers self;
     skip_existing := skip_existing self; incremental := incremental self;
     save_interval := save_interval self; env := env self;
     rate_limiter := rate_limiter self; all_records := all_records self;
     failed_products := failed_products self;
     skipped_products := skipped_products self;
     strategy_used := strategy_used self;
     existing_urls := existing_urls self;
     _products_processed := _products_processed self;
     partial_file := content; trace := trace self |}.

Definition set_trace (self : ScrapeManager) (tr : Trace)
  : ScrapeManager :=
  {| site := site self; max_workers := max_workers self;
     skip_existing := skip_existing self; incremental := incremental self;
     save_interval := save_interval self; env := env self;
     rate_limiter := rate_limiter self; all_records := all_records self;
     failed_products := failed_products self;
     skipped_products := skipped_products self;
     strategy_used := strategy_used self;
     existing_urls := existing_urls self;
     _products_processed := _products_processed self;
     partial_file := partial_file self; trace := tr |}.

Definition log (e : Event) (self : ScrapeManager) : ScrapeManager :=
  set_trace self (e :: trace self).

(** [_load_existing_urls]: the non-empty [product_url] cells of the output
    file; no file, or nothing readable, gives the empty set. *)
Definition _load_existing_urls (w : World) : gset string :=
  match output_csv w with
  | None => ∅
  | Some cells => list_to_set (filter (λ url, url ≠ "") cells)
  end.

(** [get_viable_strategies] over the strategies still to be looked at.  For
    a strategy that is not viable the log line asks [supports] again, which
    then only reads the probe's cache. *)
Fixpoint get_viable_strategies (w : World) (todo : list ScrapingStrategy)
    (self : ScrapeManager) : res (list ScrapingStrategy) * ScrapeManager :=
  match todo with
  | [] => (Ret [], self)
  | strategy :: rest =>
      match Strategy.supports w strategy (env self) (trace self) with
      | (Raise e, p, tr) => (Raise e, set_trace (set_env self p) tr)
      | (Ret ok, p, tr) =>
          match get_viable_strategies w rest (set_trace (set_env self p) tr) with
          | (Raise e, self) => (Raise e, self)
          | (Ret viable, self) =>
              (Ret (if ok then strategy :: viable else viable), self)
          end
      end
  end.

(** [[standardize_record(r) for r in records]] *)
Fixpoint standardize_all (w : World) (records : list Dict) : res (list Dict) :=
  match records with
  | [] => Ret []
  | r :: rest =>
      match standardize_record w r with
      | Raise e => Raise e
      | Ret row =>
          match standardize_all w rest with
          | Raise e => Raise e
          | Ret rows => Ret (row :: rows)
          end
      end
  end.

(** [_incremental_save] (called with the lock held): the standardized
    records replace the content of the [.partial] file; an exception on
    the way is logged and swallowed. *)
Definition _incremental_save (w : World) (self : ScrapeManager) : ScrapeManager :=
  match all_records self with
  | [] => self
  | _ :: _ =>
      match standardize_all w (all_records self) with
      | Ret rows => set_partial_file self (Some rows)
      | Raise _ => self
      end
  end.

(** The [try] block of [_scrape_single_product]. *)
Definition scrape_single_try (w : World) (strategy : ScrapingStrategy)
    (product_url : string) (self : ScrapeManager)
  : res (list Dict) * ScrapeManager :=
  let '(product_records, rl, tr) :=
    Strategy.scrape_product w strategy product_url
      (rate_limiter self) (trace self) in
  let self := set_trace (set_rate_limiter self rl) tr in
  match product_records with
  | _ :: _ =>
      let self := set_products_processed self (_products_processed self + 1) in
      (* Incremental save every N products *)
      if incremental self then
        match py_mod (_products_processed self) (save_interval self) with
        | Raise e => (Raise e, self)
        | Ret r =>
            if (r =? 0)%Z then (Ret product_records, _incremental_save w self)
            else (Ret product_records, self)
        end
      else (Ret product_records, self)
  | [] => (Ret [], set_failed_products self (failed_products self + 1))
  end.

(** [_scrape_single_product] (called by worker threads) *)
Definition _scrape_single_product (w : World) (strategy : ScrapingStrategy)
    (product_url : string) (self : ScrapeManager)
  : list Dict * ScrapeManager :=
  match scrape_single_try w strategy product_url self with
  | (Ret product_records, self) => (product_records, self)
  | (Raise _, self) =>
      ([], set_failed_products self (failed_products self + 1))
  end.

(** The first loop of [_run_with_strategy]: listing pages are read in
    order until the set has 100 links or more. *)
Fixpoint collect_product_urls (w : World) (strategy : ScrapingStrategy)
    (todo : list string) (all_product_urls : gset string) (tr : Trace)
  : gset string * Trace :=
  match todo with
  | [] => (all_product_urls, tr)
  | collection_url :: rest =>
      let '(urls, tr) := Strategy.scrape_collection w strategy collection_url tr in
      let all_product_urls := all_product_urls ∪ urls in
      if 100 <=? size all_product_urls then (all_product_urls, tr)
      else collect_product_urls w strategy rest all_product_urls tr
  end.

(** The links found on the given listing pages, taken together. *)
Definition links_of_pages (w : World) (strategy : ScrapingStrategy)
    (pages : list string) : gset string :=
  ⋃ ((λ url, (Strategy.scrape_collection w strategy url []).1) <$> pages).

(** Subtracting the URLs already scraped. *)
Definition skip_existing_urls (all_product_urls : gset string)
    (self : ScrapeManager) : gset string * ScrapeManager :=
  if skip_existing self && negb (bool_decide (existing_urls self = ∅)) then
    let before_count := size all_product_urls in
    let remaining := all_product_urls ∖ existing_urls self in
    (remaining,
     set_skipped_products self
       (Z.of_nat before_count - Z.of_nat (size remaining)))
  else (all_product_urls, self).

(** The products are scraped one after the other in the order given, each
    result extending [records]. *)
Fixpoint scrape_each (w : World) (strategy : ScrapingStrategy)
    (product_urls : list string) (records : list Dict) (self : ScrapeManager)
  : list Dict * ScrapeManager :=
  match product_urls with
  | [] => (records, self)
  | url :: rest =>
      let '(result, self) := _scrape_single_product w strategy url self in
      scrape_each w strategy rest (records ++ result) self
  end.

(** [as_completed(futures)]: the submitted products in the order their
    workers finish. *)
Definition finishes_first (w : World) (a b : string) : Prop :=
  completion_time w a ≤ completion_time w b.

#[global] Instance finishes_first_dec w : RelDecision (finishes_first w) :=
  λ a b, decide (completion_time w a ≤ completion_time w b).

Definition as_completed (w : World) (product_urls : list string) : list string :=
  merge_sort (finishes_first w) product_urls.

(** The second half of [_run_with_strategy]: one product after the other
    for a browser strategy; otherwise through a [ThreadPoolExecutor], which
    refuses a non-positive [max_workers] and whose workers each run
    [_scrape_single_product] to completion, results being taken in
    completion order. *)
Definition dispatch (w : World) (strategy : ScrapingStrategy)
    (product_urls : list string) (self : ScrapeManager)
  : res (list Dict) * ScrapeManager :=
  if Strategy.requires_browser strategy then
    let '(records, self) := scrape_each w strategy product_urls [] self in
    (Ret records, self)
  else if (max_workers self <=? 0)%Z then (Raise ValueError, self)
  else
    let '(records, self) :=
      scrape_each w strategy (as_completed w product_urls) [] self in
    (Ret records, self).

(** The first half of [_run_with_strategy]: the set of product URLs left to
    scrape, with the manager as it is at that point. *)
Definition urls_to_scrape (w : World) (strategy : ScrapingStrategy)
    (self : ScrapeManager) : gset string * ScrapeManager :=
  let '(all_product_urls, tr) :=
    collect_product_urls w strategy (collection_urls (site self)) ∅
      (trace self) in
  skip_existing_urls all_product_urls (set_trace self tr).

Definition _run_with_strategy (w : World) (strategy : ScrapingStrategy)
    (self : ScrapeManager) : res (list Dict) * ScrapeManager :=
  let '(all_product_urls, self) := urls_to_scrape w strategy self in
  if bool_decide (all_product_urls = ∅) then (Ret [], self)
  else dispatch w strategy (sorted all_product_urls) self.

(** [strategy.cleanup()]: the base class's [pass] for the requests
    strategy; for the browser strategy the session is closed when one has
    been started, and whatever closing it raises comes out. *)
Definition cleanup (w : World) (strategy : ScrapingStrategy)
    (self : ScrapeManager) : res unit * ScrapeManager :=
  let started := browser_started (trace self) in
  let self := log (EvCleanup strategy) self in
  match strategy with
  | RequestsStrategy _ => (Ret tt, self)
  | PlaywrightStrategy _ _ =>
      if started then
        match browser_close w with
        | None => (Ret tt, self)
        | Some e => (Raise e, self)
        end
      else (Ret tt, self)
  end.

(** The strategy loop of [run]; the flag is [strategy_attempted].  The
    clean-up is in the [finally] clause, outside the [except]: what it
    raises leaves the loop. *)
Fixpoint try_strategies (w : World) (viable : list ScrapingStrategy)
    (strategy_attempted : bool) (self : ScrapeManager)
  : res bool * ScrapeManager :=
  match viable with
  | [] => (Ret strategy_attempted, self)
  | strategy :: rest =>
      let self := log (EvAttempt strategy) self in
      match _run_with_strategy w strategy self with
      | (Ret (r :: records), self) =>
          (* break, then the finally clause *)
          match cleanup w strategy
                  (set_all_records (set_strategy_used self (Some strategy))
                     (r :: records)) with
          | (Raise e, self) => (Raise e, self)
          | (Ret _, self) => (Ret true, self)
          end
      | (Ret [], self) | (Raise _, self) =>
          match cleanup w strategy self with
          | (Raise e, self) => (Raise e, self)
          | (Ret _, self) => try_strategies w rest true self
          end
      end
  end.

(** A strategy attempt that brings no record: an empty list or an
    exception. *)
Definition unproductive (r : res (list Dict)) : Prop :=
  match r with
  | Ret (_ :: _) => False
  | Ret [] | Raise _ => True
  end.

(** [loop_at w viable self0 todo self]: the strategy loop that started on
    [viable] in state [self0] is at the head of an iteration with [todo]
    still to try and the manager in state [self]. *)
Inductive loop_at (w : World) (viable : list ScrapingStrategy)
    (self0 : ScrapeManager)
  : list ScrapingStrategy → ScrapeManager → Prop :=
  | loop_start : loop_at w viable self0 viable self0
  | loop_next strategy rest self r self' self'' :
      loop_at w viable self0 (strategy :: rest) self →
      _run_with_strategy w strategy (log (EvAttempt strategy) self) = (r, self') →
      unproductive r →
      cleanup w strategy self' = (Ret tt, self'') →
      loop_at w viable self0 rest self''.

(** The properties of the probe that [run] logs before it starts. *)
Definition log_environment (w : World) (self : ScrapeManager)
  : res unit * ScrapeManager :=
  match Probe.playwright_available w (env self) with
  | (Raise e, p) => (Raise e, set_env self p)
  | (Ret _, p) =>
      match Probe.browser_available w p (trace self) with
      | (Raise e, p, tr) => (Raise e, set_trace (set_env self p) tr)
      | (Ret _, p, tr) => (Ret tt, set_trace (set_env self p) tr)
      end
  end.

(** [run] up to the strategy loop: the viable strategies and the manager
    the loop starts with. *)
Definition before_loop (w : World) (self : ScrapeManager)
  : res (list ScrapingStrategy) * ScrapeManager :=
  match log_environment w self with
  | (Raise e, self) => (Raise e, self)
  | (Ret _, self) =>
      let self :=
        if skip_existing self
        then set_existing_urls self (_load_existing_urls w)
        else self in
      get_viable_strategies w (strategies (site self)) self
  end.

(** [_show_no_strategy_message] and [_show_failure_summary]: the message
    is printed, or the console refuses it. *)
Definition display (w : World) (message : Event) (self : ScrapeManager)
  : res unit * ScrapeManager :=
  match console w with
  | None => (Ret tt, log message self)
  | Some e => (Raise e, self)
  end.

(** The end of [run]: the failure summary when there is nothing to
    return, [_print_summary], which only logs, and [client.close()]. *)
Definition finish (w : World) (strategy_attempted : bool)
    (self : ScrapeManager) : res (list Dict) * ScrapeManager :=
  let shown :=
    if negb strategy_attempted || is_empty (all_records self)
    then display w EvFailureSummary self
    else (Ret tt, self) in
  match shown with
  | (Raise e, self) => (Raise e, self)
  | (Ret _, self) =>
      let self := log EvSummary self in
      match client_close w with
      | Some e => (Raise e, self)
      | None => (Ret (all_records self), self)
      end
  end.

Definition run (w : World) (self : ScrapeManager)
  : res (list Dict) * ScrapeManager :=
  match before_loop w self with
  | (Raise e, self) => (Raise e, self)
  | (Ret [], self) =>
      match display w EvNoStrategyMessage self with
      | (Raise e, self) => (Raise e, self)
      | (Ret _, self) => (Ret [], self)
      end
  | (Ret viable_strategies, self) =>
      match try_strategies w viable_strategies false self with
      | (Raise e, self) => (Raise e, self)
      | (Ret strategy_attempted, self) => finish w strategy_attempted self
      end
  end.

(** A manager on which [run] has not been called yet. *)
Definition fresh (self : ScrapeManager) : Prop :=
  all_records self = [] ∧ strategy_used self = None
  ∧ existing_urls self = ∅ ∧ skipped_products self = 0%Z
  ∧ partial_file self = None.

(** What [run] maintains between the skip-set and the skipped count: the
    set is empty when skipping is off, and nothing has been counted as
    skipped when the set is empty. *)
Definition coherent (self : ScrapeManager) : Prop :=
  (skip_existing self = false → existing_urls self = ∅)
  ∧ (existing_urls self = ∅ → skipped_products self = 0%Z).

(** The fields a strategy attempt leaves alone. *)
Definition frame (a b : ScrapeManager) : Prop :=
  site a = site b ∧ max_workers a = max_workers b
  ∧ skip_existing a = skip_existing b ∧ incremental a = incremental b
  ∧ save_interval a = save_interval b ∧ env a = env b
  ∧ all_records a = all_records b ∧ strategy_used a = strategy_used b
  ∧ existing_urls a = existing_urls b.

End Manager.

(** ** Example worlds *)

Module Examples.
Import Manager.

(** A world in which nothing is installed and nothing answers. *)
Definition silent : World :=
  {| os_environ := ∅;
     playwright_import := Some ImportError;
     firefox_launch := Some (OtherError "no browser");
     listing := λ _ _, Raise (OtherError "unreachable");
     http_get := λ _ _, Raise TimeoutException;
     page_content := λ _, Raise TimeoutException;
     extract_fn := λ _ _, Ret [];
     output_csv := None;
     standardize_record := Ret;
     completion_time := λ _, 0;
     browser_close := None;
     console := None;
     client_close := None |}.

(** Replit, with Playwright installed. *)
Definition replit : World :=
  {| os_environ := {[ "REPL_ID" := "a1b2" ]};
     playwright_import := None;
     firefox_launch := None;
     listing := listing silent;
     http_get := http_get silent;
     page_content := page_content silent;
     extract_fn := extract_fn silent;
     output_csv := None;
     standardize_record := Ret;
     completion_time := λ _, 0;
     browser_close := None;
     console := None;
     client_close := None |}.

(** A machine with a working browser; every page renders, and nothing
    can be extracted from any of them. *)
Definition blank_pages : World :=
  {| os_environ := ∅;
     playwright_import := None;
     firefox_launch := None;
     listing := λ _ _, Ret ∅;
     http_get := λ _ _, Ret (mkResponse 200 "<html></html>");
     page_content := λ _, Ret "<html></html>";
     extract_fn := λ _ _, Ret [];
     output_csv := None;
     standardize_record := Ret;
     completion_time := λ _, 0;
     browser_close := None;
     console := None;
     client_close := None |}.

(** An installation of Playwright that breaks on import. *)
Definition broken_install : World :=
  {| os_environ := ∅;
     playwright_import := Some (OtherError "SyntaxError");
     firefox_launch := None;
     listing := listing silent;
     http_get := http_get silent;
     page_content := page_content silent;
     extract_fn := extract_fn silent;
     output_csv := None;
     standardize_record := Ret;
     completion_time := λ _, 0;
     browser_close := None;
     console := None;
     client_close := None |}.

(** Playwright is installed, the libraries the browser needs are not. *)
Definition no_display : World :=
  {| os_environ := ∅;
     playwright_import := None;
     firefox_launch := Some (OtherError "libgtk-3.so.0 not found");
     listing := listing silent;
     http_get := http_get silent;
     page_content := page_content silent;
     extract_fn := extract_fn silent;
     output_csv := None;
     standardize_record := Ret;
     completion_time := λ _, 0;
     browser_close := None;
     console := None;
     client_close := None |}.

Definition product (i : nat) : string :=
  "https://shop.example/products/" +:+ pretty i.

(** A shop whose single listing page links [n] products, each of which
    yields one record; [seen] is the [product_url] column of the output
    file of an earlier run. *)
Definition shop_world (n : nat) (seen : option (list string)) : World :=
  {| os_environ := ∅;
     playwright_import := Some ImportError;
     firefox_launch := Some (OtherError "no browser");
     listing := λ _ _, Ret (list_to_set (product <$> seq 1 n));
     http_get := λ _ _, Ret (mkResponse 200 "<html></html>");
     page_content := λ _, Raise TimeoutException;
     extract_fn := λ _ url, Ret [[("product_url", url)]];
     output_csv := seen;
     standardize_record := Ret;
     completion_time := λ _, 0;
     browser_close := None;
     console := None;
     client_close := None |}.

Definition shop : SiteProfile :=
  {| site_name := "Shop"; key := "shop";
     base_url := "https://shop.example";
     collection_urls := ["https://shop.example/collections/all"];
     output_file := "shop_raw.csv";
     strategies := [RequestsStrategy (3 # 10)] |}.

(** A shop whose listing page links [n] products, none of whose pages
    yields a record, however it is fetched; a browser can be had.  The
    three arguments are what closing the browser, printing a message and
    closing the client raise, if anything. *)
Definition empty_pages (n : nat) (closing printing disconnecting : option exn)
  : World :=
  {| os_environ := ∅;
     playwright_import := None;
     firefox_launch := None;
     listing := λ _ _, Ret (list_to_set (product <$> seq 1 n));
     http_get := λ _ _, Ret (mkResponse 200 "<html></html>");
     page_content := λ _, Ret "<html></html>";
     extract_fn := λ _ _, Ret [];
     output_csv := None;
     standardize_record := Ret;
     completion_time := λ _, 0;
     browser_close := closing;
     console := printing;
     client_close := disconnecting |}.

(** The shop rendered in the browser only. *)
Definition shop_in_browser : SiteProfile :=
  {| site_name := "Shop"; key := "shop";
     base_url := "https://shop.example";
     collection_urls := ["https://shop.example/collections/all"];
     output_file := "shop_raw.csv";
     strategies := [PlaywrightStrategy 10 60000] |}.

(** The shop of [shop_world] where a browser can be had, but every page
    times out in it. *)
Definition slow_browser (n : nat) : World :=
  {| os_environ := ∅;
     playwright_import := None;
     firefox_launch := None;
     listing := λ s _,
       match s with
       | RequestsStrategy _ => Ret (list_to_set (product <$> seq 1 n))
       | PlaywrightStrategy _ _ => Raise TimeoutException
       end;
     http_get := λ _ _, Ret (mkResponse 200 "<html></html>");
     page_content := λ _, Raise TimeoutException;
     extract_fn := λ _ url, Ret [[("product_url", url)]];
     output_csv := None;
     standardize_record := Ret;
     completion_time := λ _, 0;
     browser_close := None;
     console := None;
     client_close := None |}.

(** The shop, to be tried with the browser first and with plain requests
    after that. *)
Definition shop_both_ways : SiteProfile :=
  {| site_name := "Shop"; key := "shop";
     base_url := "https://shop.example";
     collection_urls := ["https://shop.example/collections/all"];
     output_file := "shop_raw.csv";
     strategies := [PlaywrightStrategy 10 60000; RequestsStrategy (3 # 10);
                    RequestsStrategy 1] |}.

End Examples.

(** * Properties *)

(** ** Helpers on rationals *)

Lemma Qlt_bool_iff a b : Qlt_bool a b = true ↔ (a < b)%Q.
Proof.
  unfold Qlt_bool. rewrite negb_true_iff. split.
  - intros H. apply Qnot_le_lt. intros Hle.
    apply Qle_bool_iff in Hle. congruence.
  - intros H. destruct (Qle_bool b a) eqn:E; [|done].
    apply Qle_bool_iff in E. exfalso. by apply (Qlt_not_le a b).
Qed.

Lemma Qlt_bool_false a b : Qlt_bool a b = false ↔ (b <= a)%Q.
Proof. unfold Qlt_bool. rewrite negb_false_iff. apply Qle_bool_iff. Qed.

Lemma py_max_spec a b :
  (a < b)%Q ∧ py_max a b = b ∨ (b <= a)%Q ∧ py_max a b = a.
Proof.
  unfold py_max. destruct (Qlt_bool a b) eqn:E.
  - left. by apply Qlt_bool_iff in E.
  - right. by apply Qlt_bool_false in E.
Qed.

Lemma py_min_spec a b :
  (b < a)%Q ∧ py_min a b = b ∨ (a <= b)%Q ∧ py_min a b = a.
Proof.
  unfold py_min. destruct (Qlt_bool b a) eqn:E.
  - left. by apply Qlt_bool_iff in E.
  - right. by apply Qlt_bool_false in E.
Qed.

(** ** The rate limiter *)

Section limiter_facts.
Import RateLimiter.

Lemma call_keeps_configuration rl c :
  min_delay (call rl c) = min_delay rl ∧ max_delay (call rl c) = max_delay rl.
Proof.
  destruct c; simpl; unfold record_success; [|done..].
  by destruct (10 <=? consecutive_successes rl + 1)%Z.
Qed.

Lemma record_success_delay rl :
  current_delay (record_success rl) = current_delay rl
  ∨ current_delay (record_success rl)
    = py_max (min_delay rl) (current_delay rl * (9 # 10)).
Proof.
  unfold record_success.
  destruct (10 <=? consecutive_successes rl + 1)%Z; simpl; auto.
Qed.

Lemma call_preserves_bounds rl c :
  (0 <= min_delay rl)%Q → within_bounds rl → within_bounds (call rl c).
Proof.
  intros Hmin [Hlo Hhi]. unfold within_bounds.
  destruct (call_keeps_configuration rl c) as [-> ->].
  destruct c; simpl.
  - destruct (record_success_delay rl) as [-> | ->]; [done|].
    destruct (py_max_spec (min_delay rl) (current_delay rl * (9 # 10)))
      as [[? ->] | [? ->]]; split; lra.
  - destruct (py_min_spec (max_delay rl) (current_delay rl * 2))
      as [[? ->] | [? ->]]; split; lra.
  - destruct (py_min_spec (max_delay rl) (current_delay rl * (12 # 10)))
      as [[? ->] | [? ->]]; split; lra.
Qed.

Lemma calls_preserve_bounds cs : ∀ rl,
  (0 <= min_delay rl)%Q → within_bounds rl → within_bounds (calls rl cs).
Proof.
  induction cs as [|c cs IH]; intros rl Hmin Hb; [done|].
  simpl. apply IH.
  - by destruct (call_keeps_configuration rl c) as [-> _].
  - by apply call_preserves_bounds.
Qed.

Lemma calls_keep_configuration cs : ∀ rl,
  min_delay (calls rl cs) = min_delay rl ∧ max_delay (calls rl cs) = max_delay rl.
Proof.
  induction cs as [|c cs IH]; intros rl; [done|]. simpl.
  destruct (IH (call rl c)) as [-> ->]. apply call_keeps_configuration.
Qed.

Lemma reachable_configuration min_d max_d rl :
  reachable min_d max_d rl → min_delay rl = min_d ∧ max_delay rl = max_d.
Proof.
  induction 1 as [|rl c _ [IH1 IH2]]; [done|].
  by destruct (call_keeps_configuration rl c) as [-> ->].
Qed.

Lemma reachable_within_bounds min_d max_d rl :
  (0 <= min_d)%Q → (min_d <= max_d)%Q →
  reachable min_d max_d rl → within_bounds rl.
Proof.
  intros Hmin Hle. induction 1 as [|rl c Hr IH].
  - split; simpl; lra.
  - apply call_preserves_bounds; [|done].
    by destruct (reachable_configuration _ _ _ Hr) as [-> _].
Qed.

(** C2, as stated, fails: a governor built with [min_delay = -1] and
    [max_delay = 5] (so that [min_delay <= max_delay]) leaves the interval
    at its first [record_rate_limit], which takes the delay to [-2]. *)
Lemma negative_min_delay_leaves_bounds :
  (-1 <= 5)%Q
  ∧ current_delay (init (-1) 5) = min_delay (init (-1) 5)
  ∧ ¬ within_bounds (calls (init (-1) 5) [RateLimited]).
Proof.
  split; [done|]. split; [done|].
  intros [H _]. vm_compute in H. by apply H.
Qed.

(** C2, amended: for a governor built with [0 <= min_delay <= max_delay],
    whatever the sequence of [record_success], [record_rate_limit] and
    [record_error] calls, the delay is within [[min_delay, max_delay]]
    after each of them (after every prefix of the sequence). *)
Theorem delay_stays_within_bounds (min_d max_d : Q) (cs : list Call) (n : nat) :
  (0 <= min_d)%Q → (min_d <= max_d)%Q →
  let rl := calls (init min_d max_d) (take n cs) in
  (min_d <= current_delay rl)%Q ∧ (current_delay rl <= max_d)%Q.
Proof.
  intros Hmin Hle. cbv zeta.
  destruct (calls_keep_configuration (take n cs) (init min_d max_d)) as [E1 E2].
  destruct (calls_preserve_bounds (take n cs) (init min_d max_d)) as [H1 H2];
    [done | split; simpl; lra |].
  rewrite E1 in H1. rewrite E2 in H2. done.
Qed.

Lemma delay_stays_within_bounds_witness :
  (0 <= 3 # 10)%Q ∧ (3 # 10 <= 2)%Q
  ∧ let rl := calls (init (3 # 10) 2)
                (take 3 [RateLimited; Error; Success; RateLimited]) in
    ((3 # 10) <= current_delay rl)%Q ∧ (current_delay rl <= 2)%Q.
Proof.
  split; [by vm_compute|]. split; [by vm_compute|].
  apply (delay_stays_within_bounds (3 # 10) 2
           [RateLimited; Error; Success; RateLimited] 3); by vm_compute.
Defined.

(** C7, as stated, fails on governors the constructor accepts: built with
    [min_delay = 3 > max_delay = 2], the first [record_rate_limit] lowers
    the delay from 3 to 2; built with [min_delay = -1], the tenth
    [record_success] raises it from -1 to -0.9. *)
Lemma monotonicity_needs_sane_bounds :
  reachable 3 2 (init 3 2)
  ∧ ¬ (current_delay (init 3 2)
       <= current_delay (record_rate_limit (init 3 2)))%Q
  ∧ reachable (-1) 5 (calls (init (-1) 5) (replicate 9 Success))
  ∧ ¬ (current_delay (record_success (calls (init (-1) 5) (replicate 9 Success)))
       <= current_delay (calls (init (-1) 5) (replicate 9 Success)))%Q.
Proof.
  split; [constructor|]. split; [by vm_compute|].
  split; [|by vm_compute].
  change (replicate 9 Success) with
    [Success; Success; Success; Success; Success; Success; Success; Success; Success].
  unfold calls. simpl fold_left.
  repeat (apply (reachable_call _ _ _ Success)). constructor.
Qed.

(** C7, amended: from any state of a governor built with
    [0 <= min_delay <= max_delay], [record_rate_limit] does not lower the
    delay and [record_success] does not raise it. *)
Theorem rate_limit_slows_success_never_does (min_d max_d : Q)
    (rl : AdaptiveRateLimiter) :
  (0 <= min_d)%Q → (min_d <= max_d)%Q → reachable min_d max_d rl →
  (current_delay rl <= current_delay (record_rate_limit rl))%Q
  ∧ (current_delay (record_success rl) <= current_delay rl)%Q.
Proof.
  intros Hmin Hle Hr.
  destruct (reachable_within_bounds _ _ _ Hmin Hle Hr) as [Hlo Hhi].
  destruct (reachable_configuration _ _ _ Hr) as [Hmn Hmx].
  rewrite Hmn in Hlo. rewrite Hmx in Hhi. split.
  - simpl. rewrite Hmx.
    destruct (py_min_spec max_d (current_delay rl * 2))
      as [[? ->] | [? ->]]; lra.
  - destruct (record_success_delay rl) as [-> | ->]; [lra|].
    rewrite Hmn.
    destruct (py_max_spec min_d (current_delay rl * (9 # 10)))
      as [[? ->] | [? ->]]; lra.
Qed.

Lemma rate_limit_slows_success_never_does_witness :
  let rl := calls (init (3 # 10) 2) [RateLimited; Success] in
  (0 <= 3 # 10)%Q ∧ (3 # 10 <= 2)%Q ∧ reachable (3 # 10) 2 rl
  ∧ (current_delay rl <= current_delay (record_rate_limit rl))%Q
  ∧ (current_delay (record_success rl) <= current_delay rl)%Q.
Proof.
  assert (Hr : reachable (3 # 10) 2
                 (calls (init (3 # 10) 2) [RateLimited; Success])).
  { apply (reachable_call _ _ _ Success).
    apply (reachable_call _ _ _ RateLimited). constructor. }
  split; [by vm_compute|]. split; [by vm_compute|]. split; [exact Hr|].
  apply (rate_limit_slows_success_never_does (3 # 10) 2);
    [by vm_compute | by vm_compute | exact Hr].
Defined.

End limiter_facts.

(** ** The environment probe *)

Section probe_facts.
Import Probe.

Lemma import_guarded_cases w :
  import_guarded w →
  playwright_import w = None ∧ playwright_importable w = true
  ∨ playwright_import w = Some ImportError ∧ playwright_importable w = false.
Proof.
  unfold import_guarded, playwright_importable. intros Hg.
  destruct (playwright_import w) as [e|]; [right | by left].
  by rewrite (Hg e eq_refl).
Qed.

Lemma playwright_available_coherent w p :
  cache_coherent w p →
  cache_coherent w (playwright_available w p).2
  ∧ _browser_available (playwright_available w p).2 = _browser_available p
  ∧ (∀ b, (playwright_available w p).1 = Ret b → b = playwright_importable w)
  ∧ (import_guarded w →
     (playwright_available w p).1 = Ret (playwright_importable w)).
Proof.
  intros Hc. pose proof Hc as [Hpa Hba].
  unfold playwright_available, import_sync_playwright.
  destruct (_playwright_available p) as [b|] eqn:E.
  - rewrite (Hpa b eq_refl). split_and!; [exact Hc | done | | done].
    intros b' Hb'. simpl in Hb'. by simplify_eq.
  - assert (Hi : ∀ e, playwright_import w = Some e →
                      playwright_importable w = false).
    { intros e He. unfold playwright_importable. by rewrite He. }
    destruct (playwright_import w) as [e|] eqn:Ei.
    + specialize (Hi e eq_refl).
      assert (Hother : e ≠ ImportError →
        cache_coherent w p ∧ _browser_available p = _browser_available p
        ∧ (∀ b, @Raise bool e = Ret b → b = playwright_importable w)
        ∧ (import_guarded w → @Raise bool e = Ret (playwright_importable w))).
      { intros Hne. split_and!; [done..|]. intros Hg.
        destruct Hne. by apply Hg. }
      destruct e; simpl; try (apply Hother; discriminate).
      rewrite Hi. split_and!; [|done| |done].
      * split; simpl; intros; simplify_eq; [by rewrite Hi | by apply Hba].
      * intros b Hb. by simplify_eq.
    + assert (Ht : playwright_importable w = true).
      { unfold playwright_importable. by rewrite Ei. }
      simpl. split_and!; try done.
      * split; simpl; intros; simplify_eq; [by rewrite Ht | by apply Hba].
      * intros; simplify_eq/=; by rewrite Ht.
      * intros _. by rewrite Ht.
Qed.

Lemma set_browser_coherent w p b :
  cache_coherent w p → b = launchable w → cache_coherent w (set_browser p b).
Proof.
  intros [Hpa Hba] ->. split; simpl; [done|]. intros b Hb. by simplify_eq.
Qed.

Lemma browser_available_coherent w p tr :
  cache_coherent w p →
  cache_coherent w (browser_available w p tr).1.2
  ∧ (∀ b, (browser_available w p tr).1.1 = Ret b → b = launchable w)
  ∧ (import_guarded w → (browser_available w p tr).1.1 = Ret (launchable w))
  ∧ (is_replit w = true ∨ playwright_importable w = false →
     (browser_available w p tr).2 = tr).
Proof.
  intros Hc.
  destruct (playwright_available_coherent w p Hc) as (Hc1 & Hk & Hv & Hg).
  pose proof Hc as [Hpa Hba].
  unfold browser_available.
  destruct (_browser_available p) as [b|] eqn:E.
  { rewrite (Hba b eq_refl). split_and!; [done | | done | done].
    intros b' Hb'. simpl in Hb'. by simplify_eq. }
  destruct (playwright_available w p) as [[b|e] p1] eqn:Ep; simpl in *.
  - specialize (Hv b eq_refl). subst b.
    unfold import_sync_playwright, launch_and_close.
    destruct (playwright_importable w) eqn:Ei.
    + assert (Hn : playwright_import w = None).
      { unfold playwright_importable in Ei. by case_bool_decide. }
      rewrite Hn.
      destruct (is_replit w) eqn:Er; simpl.
      * assert (Hl : false = launchable w)
          by (unfold launchable; by rewrite Ei, Er).
        split_and!; [by apply set_browser_coherent | | by rewrite Hl | done].
        intros b Hb. by simplify_eq/=.
      * destruct (firefox_launch w) as [e|] eqn:El; simpl.
        -- assert (Hl : false = launchable w)
             by (unfold launchable; by rewrite Ei, Er, El).
           split_and!;
             [by apply set_browser_coherent | | by rewrite Hl | by intros [|]].
           intros b Hb. by simplify_eq/=.
        -- assert (Hl : true = launchable w)
             by (unfold launchable; by rewrite Ei, Er, El).
           split_and!;
             [by apply set_browser_coherent | | by rewrite Hl | by intros [|]].
           intros b Hb. by simplify_eq/=.
    + assert (Hl : false = launchable w) by (unfold launchable; by rewrite Ei).
      split_and!; [by apply set_browser_coherent | | by rewrite Hl | done].
      intros b Hb. by simplify_eq/=.
  - split_and!; [done | done | | done]. intros Hi. by specialize (Hg Hi).
Qed.

Lemma playwright_available_guarded w p :
  import_guarded w → ∃ b, (playwright_available w p).1 = Ret b.
Proof.
  intros Hg. unfold playwright_available, import_sync_playwright.
  destruct (_playwright_available p); [by eexists|].
  destruct (import_guarded_cases w Hg) as [[-> _] | [-> _]]; by eexists.
Qed.

Lemma browser_available_guarded w p tr :
  import_guarded w → ∃ b, (browser_available w p tr).1.1 = Ret b.
Proof.
  intros Hg. unfold browser_available.
  destruct (_browser_available p); [by eexists|].
  destruct (playwright_available_guarded w p Hg) as [b Hb].
  destruct (playwright_available w p) as [r p1]. simpl in Hb. subst r.
  unfold import_sync_playwright, launch_and_close.
  destruct b; [|by eexists].
  destruct (is_replit w); [by eexists|].
  destruct (playwright_import w); [by eexists|].
  destruct (firefox_launch w); by eexists.
Qed.

Lemma reachable_cache_coherent w p : reachable w p → cache_coherent w p.
Proof.
  induction 1 as [|p Hr IH|p tr Hr IH].
  - split; simpl; intros; simplify_eq.
  - by apply playwright_available_coherent.
  - by apply browser_available_coherent.
Qed.

(** C8, as stated, fails where the import of the library raises anything
    but ImportError: [playwright_available] handles that exception alone,
    and [browser_available] reads [playwright_available] before its own
    [try]. *)
Lemma broken_import_escapes_the_probe :
  (playwright_available Examples.broken_install init).1
  = Raise (OtherError "SyntaxError")
  ∧ (browser_available Examples.broken_install init []).1.1
    = Raise (OtherError "SyntaxError").
Proof. done. Qed.

(** C8, amended: provided the import of the library binds the name or
    raises ImportError, on any probe a process can hold
    [playwright_available] returns whether the import binds, and
    [browser_available] returns whether the import binds, the process is
    not in Replit and the launch-and-close goes through: a failed import
    and a failed launch are degraded to false and nothing is raised.  When
    [is_replit] is true or [playwright_available] is false,
    [browser_available] is false and the trace is left as it was: no
    browser launch is attempted. *)
Theorem browser_probe_guarded (w : World) (p : EnvironmentProbe) (tr : Trace) :
  reachable w p → import_guarded w →
  (playwright_available w p).1 = Ret (playwright_importable w)
  ∧ (browser_available w p tr).1.1 = Ret (launchable w)
  ∧ (is_replit w = true ∨ (playwright_available w p).1 = Ret false →
     (browser_available w p tr).1.1 = Ret false
     ∧ (browser_available w p tr).2 = tr).
Proof.
  intros Hr Hg.
  pose proof (reachable_cache_coherent w p Hr) as Hc.
  destruct (playwright_available_coherent w p Hc) as (_ & _ & _ & Hv).
  destruct (browser_available_coherent w p tr Hc) as (_ & _ & Hb & Ht).
  rewrite (Hv Hg), (Hb Hg). split_and!; try done.
  intros Hguard.
  assert (Hor : is_replit w = true ∨ playwright_importable w = false).
  { destruct Hguard as [?|Hf]; [by left | right]. by simplify_eq. }
  split; [|by apply Ht]. f_equal. unfold launchable.
  destruct Hor as [-> | ->]; [|done]. by rewrite andb_false_r.
Qed.

Lemma browser_probe_guarded_witness :
  let w := Examples.no_display in
  let p := (browser_available w init []).1.2 in
  reachable w p ∧ import_guarded w
  ∧ (playwright_available w p).1 = Ret true
  ∧ (browser_available w p [EvLaunch]).1.1 = Ret false.
Proof.
  intros w p.
  assert (Hr : reachable w p) by (apply reachable_browser; constructor).
  assert (Hg : import_guarded w) by (intros e He; discriminate).
  split; [exact Hr|]. split; [exact Hg|].
  destruct (browser_probe_guarded w p [EvLaunch] Hr Hg) as (H1 & H2 & _).
  split; [exact H1 | exact H2].
Defined.

End probe_facts.

(** ** The strategies *)

Section strategy_facts.
Import RateLimiter Strategy.

Lemma wait_spec rl tr :
  wait rl tr = (Raise ValueError, tr)
  ∨ wait rl tr = (Ret tt, EvWait (current_delay rl) :: tr).
Proof. unfold wait. destruct (Qlt_bool _ _); auto. Qed.

Lemma requests_attempt_productive w url attempt rl tr r records rl' tr' :
  requests_attempt w url attempt rl tr = (Return (r :: records), rl', tr') →
  ∃ tr0, tr' = EvWait (current_delay rl') :: tr0.
Proof.
  unfold requests_attempt, requests_try, requests_except, wait.
  intros H. repeat case_match; simplify_eq; by eexists.
Qed.

Lemma requests_loop_productive w url remaining :
  ∀ attempt rl tr r records rl' tr',
    requests_loop w url attempt remaining rl tr = (r :: records, rl', tr') →
    ∃ tr0, tr' = EvWait (current_delay rl') :: tr0.
Proof.
  induction remaining as [|n IH]; intros attempt rl tr r records rl' tr' H;
    simpl in H; [done|].
  destruct (requests_attempt w url attempt rl tr) as [[[recs|] rl1] tr1] eqn:E.
  - simplify_eq. by eapply requests_attempt_productive.
  - by eapply IH.
Qed.

(** With either strategy, a fetch that returns records has just waited. *)
Lemma scrape_product_productive w s url rl tr records rl' tr' :
  scrape_product w s url rl tr = (records, rl', tr') → records ≠ [] →
  ∃ tr0, tr' = EvWait (current_delay rl') :: tr0.
Proof.
  intros H Hne. destruct s as [d|sc pt]; unfold scrape_product in H.
  - destruct records as [|r records]; [done|].
    by eapply requests_loop_productive.
  - unfold playwright_scrape_product, wait in H.
    repeat case_match; simplify_eq; by eexists.
Qed.

(** C3: the browser strategy waits where the claim, and the requests
    strategy under its comment "Only wait if we got data (success)", do
    not.  On a page that renders and from which the callback extracts no
    record, [PlaywrightStrategy.scrape_product] returns the empty list
    after a [wait]; on the same page fetched with a 200,
    [RequestsStrategy.scrape_product] returns it without one. *)
Theorem playwright_waits_without_records :
  let url := "https://shop.example/p/1" in
  page_content Examples.blank_pages url = Ret "<html></html>"
  ∧ http_get Examples.blank_pages url 0 = Ret (mkResponse 200 "<html></html>")
  ∧ extract_fn Examples.blank_pages "<html></html>" url = Ret []
  ∧ scrape_product Examples.blank_pages (PlaywrightStrategy 10 60000) url
      RateLimiter.default []
    = ([], RateLimiter.default, [EvWait (3 # 10); EvGoto url])
  ∧ scrape_product Examples.blank_pages (RequestsStrategy (3 # 10)) url
      RateLimiter.default []
    = ([], record_success RateLimiter.default, [EvGet url]).
Proof. done. Qed.

End strategy_facts.

(** ** The scrape manager *)

Section manager_facts.
Import RateLimiter Manager.

(** *** Traces *)

Lemma attempts_app (a b : Trace) : attempts (a ++ b) = attempts b ++ attempts a.
Proof. unfold attempts. by rewrite reverse_app, omap_app. Qed.

Lemma quiet_refl tr : quiet tr tr.
Proof. by exists []. Qed.

Lemma quiet_trans a b c : quiet a b → quiet b c → quiet a c.
Proof.
  intros (x & -> & Hx) (y & -> & Hy). exists (y ++ x).
  split; [by rewrite app_assoc|]. by rewrite attempts_app, Hx, Hy.
Qed.

Lemma quiet_cons e tr tr' : attempts [e] = [] → quiet tr tr' → quiet tr (e :: tr').
Proof.
  intros He (x & -> & Hx). exists (e :: x). split; [done|].
  change (e :: x) with ([e] ++ x). by rewrite attempts_app, Hx, He.
Qed.

Lemma quiet_attempts tr tr' : quiet tr tr' → attempts tr' = attempts tr.
Proof. intros (x & -> & Hx). by rewrite attempts_app, Hx, app_nil_r. Qed.

Lemma attempts_cons e tr :
  attempts (e :: tr)
  = attempts tr ++ match e with EvAttempt s => [s] | _ => [] end.
Proof.
  change (e :: tr) with ([e] ++ tr). rewrite attempts_app. by destruct e.
Qed.

Ltac quiet_step :=
  repeat (apply quiet_cons; [reflexivity|]); try apply quiet_refl.

Lemma browser_available_quiet w p tr :
  quiet tr (Probe.browser_available w p tr).2.
Proof.
  unfold Probe.browser_available.
  repeat case_match; simplify_eq; simpl; quiet_step.
Qed.

Lemma requests_attempt_quiet w url attempt rl tr f rl' tr' :
  Strategy.requests_attempt w url attempt rl tr = (f, rl', tr') → quiet tr tr'.
Proof.
  unfold Strategy.requests_attempt, Strategy.requests_try,
    Strategy.requests_except, wait.
  intros H. repeat case_match; simplify_eq; quiet_step.
Qed.

Lemma requests_loop_quiet w url remaining : ∀ attempt rl tr records rl' tr',
  Strategy.requests_loop w url attempt remaining rl tr = (records, rl', tr') →
  quiet tr tr'.
Proof.
  induction remaining as [|n IH]; intros attempt rl tr records rl' tr' H;
    simpl in H.
  - simplify_eq. apply quiet_refl.
  - destruct (Strategy.requests_attempt w url attempt rl tr)
      as [[[recs|] rl1] tr1] eqn:E; apply requests_attempt_quiet in E.
    + by simplify_eq.
    + eapply quiet_trans; [done|]. by eapply IH.
Qed.

Lemma scrape_product_quiet w s url rl tr records rl' tr' :
  Strategy.scrape_product w s url rl tr = (records, rl', tr') → quiet tr tr'.
Proof.
  destruct s; unfold Strategy.scrape_product.
  - apply requests_loop_quiet.
  - unfold Strategy.playwright_scrape_product, wait. intros H.
    repeat case_match; simplify_eq; quiet_step.
Qed.

Lemma scrape_collection_quiet w s url tr :
  quiet tr (Strategy.scrape_collection w s url tr).2.
Proof.
  unfold Strategy.scrape_collection.
  repeat case_match; simplify_eq; simpl; quiet_step.
Qed.

Lemma collect_product_urls_cons w s c todo acc tr :
  collect_product_urls w s (c :: todo) acc tr
  = let '(urls, tr) := Strategy.scrape_collection w s c tr in
    if 100 <=? size (acc ∪ urls) then (acc ∪ urls, tr)
    else collect_product_urls w s todo (acc ∪ urls) tr.
Proof. done. Qed.

Lemma collect_product_urls_quiet w s todo : ∀ acc tr,
  quiet tr (collect_product_urls w s todo acc tr).2.
Proof.
  induction todo as [|c todo IH]; intros acc tr; [apply quiet_refl|].
  rewrite collect_product_urls_cons.
  pose proof (scrape_collection_quiet w s c tr) as Hq.
  destruct (Strategy.scrape_collection w s c tr) as [urls tr1]. simpl in Hq.
  case_match; simpl; [done|].
  eapply quiet_trans; [done|]. apply IH.
Qed.

(** *** Collecting the product URLs *)

Lemma scrape_collection_links w s url tr :
  (Strategy.scrape_collection w s url tr).1
  = (Strategy.scrape_collection w s url []).1.
Proof. unfold Strategy.scrape_collection. by repeat case_match. Qed.

Lemma collect_product_urls_spec w s todo : ∀ acc tr,
  size acc < 100 →
  ∃ visited rest,
    todo = visited ++ rest
    ∧ (collect_product_urls w s todo acc tr).1 = acc ∪ links_of_pages w s visited
    ∧ (rest ≠ [] → 100 ≤ size (acc ∪ links_of_pages w s visited))
    ∧ (∀ before last, visited = before ++ [last] →
       size (acc ∪ links_of_pages w s before) < 100).
Proof.
  induction todo as [|c todo IH]; intros acc tr Hacc.
  - exists [], []. unfold links_of_pages. simpl.
    rewrite (right_id_L ∅ (∪)). split_and!; try done.
    intros before last E. by destruct before.
  - rewrite collect_product_urls_cons.
    pose proof (scrape_collection_links w s c tr) as Hl.
    destruct (Strategy.scrape_collection w s c tr) as [urls tr1].
    simpl in Hl. subst urls.
    destruct (100 <=? size (acc ∪ (Strategy.scrape_collection w s c []).1))
      eqn:E.
    + apply Nat.leb_le in E. exists [c], todo.
      unfold links_of_pages. simpl. rewrite (right_id_L ∅ (∪)).
      split_and!; try done.
      intros before last Eq. destruct before as [|? [|]]; simplify_eq.
      simpl. by rewrite (right_id_L ∅ (∪)).
    + apply Nat.leb_gt in E.
      destruct (IH (acc ∪ (Strategy.scrape_collection w s c []).1) tr1 E)
        as (visited & rest & -> & H1 & H2 & H3).
      exists (c :: visited), rest.
      assert (Hassoc : ∀ pages,
        acc ∪ links_of_pages w s (c :: pages)
        = acc ∪ (Strategy.scrape_collection w s c []).1 ∪ links_of_pages w s pages).
      { intros pages. unfold links_of_pages. simpl. by rewrite (assoc_L (∪)). }
      split_and!; [done | by rewrite Hassoc | by rewrite Hassoc |].
      intros before last Eq. destruct before as [|c' before]; simpl in Eq.
      * unfold links_of_pages. simpl. by rewrite (right_id_L ∅ (∪)).
      * simplify_eq. rewrite Hassoc. by eapply H3.
Qed.

(** C9, as stated, fails: a single listing page that links 101 products
    leaves 101 URLs in the collected set, one more than the limit. *)
Lemma one_listing_page_exceeds_the_limit :
  let collected :=
    (collect_product_urls (Examples.shop_world 101 None)
       (RequestsStrategy (3 # 10)) (collection_urls Examples.shop) ∅ []).1 in
  size collected = 101 ∧ ¬ size collected ≤ 100.
Proof.
  intros collected.
  assert (E : size collected = 101) by (by vm_compute).
  rewrite E. split; [done | lia].
Qed.

(** C9, amended: within a strategy attempt the listing pages are read in
    order and reading stops after the first page with which the collected
    set reaches 100 URLs or more; the set is the union of the links of the
    pages read and is not cut down, so that fewer than 100 of its URLs come
    from the pages before the last one read. *)
Theorem collection_stops_at_limit (w : World) (s : ScrapingStrategy)
    (pages : list string) (tr : Trace) :
  ∃ visited rest,
    pages = visited ++ rest
    ∧ (collect_product_urls w s pages ∅ tr).1 = links_of_pages w s visited
    ∧ (rest ≠ [] → 100 ≤ size (links_of_pages w s visited))
    ∧ (∀ before last, visited = before ++ [last] →
       size (links_of_pages w s before) < 100).
Proof.
  destruct (collect_product_urls_spec w s pages ∅ tr)
    as (visited & rest & H1 & H2 & H3 & H4).
  { rewrite size_empty. lia. }
  exists visited, rest. rewrite (left_id_L ∅ (∪)) in H2, H3.
  split_and!; try done.
  intros before last E. specialize (H4 before last E).
  by rewrite (left_id_L ∅ (∪)) in H4.
Qed.

(** *** Scraping the products *)

Lemma incremental_save_without_records w self :
  all_records self = [] → _incremental_save w self = self.
Proof. unfold _incremental_save. by intros ->. Qed.

Lemma frame_refl a : frame a a.
Proof. by repeat split. Qed.

Lemma frame_trans a b c : frame a b → frame b c → frame a c.
Proof. unfold frame. intros ? ?. destruct_and!. split_and!; congruence. Qed.

Lemma scrape_single_product_frame w s url self :
  let self' := (_scrape_single_product w s url self).2 in
  frame self self' ∧ skipped_products self' = skipped_products self
  ∧ quiet (trace self) (trace self')
  ∧ (all_records self = [] → partial_file self' = partial_file self).
Proof.
  unfold _scrape_single_product, scrape_single_try, _incremental_save, frame.
  destruct (Strategy.scrape_product _ _ _ _ _) as [[recs rl] tr] eqn:E.
  apply scrape_product_quiet in E.
  repeat case_match; simplify_eq; simpl in *; split_and!; try done;
    congruence.
Qed.

Lemma scrape_single_product_counts w s url self :
  incremental self = false ∨ save_interval self ≠ 0%Z →
  let fetched :=
    (Strategy.scrape_product w s url (rate_limiter self) (trace self)).1.1 in
  let out := _scrape_single_product w s url self in
  match fetched with
  | _ :: _ =>
      out.1 = fetched
      ∧ _products_processed out.2 = (_products_processed self + 1)%Z
      ∧ failed_products out.2 = failed_products self
  | [] =>
      out.1 = []
      ∧ _products_processed out.2 = _products_processed self
      ∧ failed_products out.2 = (failed_products self + 1)%Z
  end.
Proof.
  intros Hk.
  unfold _scrape_single_product, scrape_single_try, _incremental_save, py_mod.
  destruct (Strategy.scrape_product _ _ _ _ _) as [[recs rl] tr]. simpl.
  destruct recs as [|r recs]; [done|]. simpl.
  destruct (incremental self) eqn:Ei; [|done].
  destruct Hk as [?|Hk]; [done|].
  destruct (save_interval self =? 0)%Z eqn:Ez; [lia|].
  repeat case_match; simplify_eq; done.
Qed.

Lemma scrape_each_frame w s urls : ∀ records self,
  let self' := (scrape_each w s urls records self).2 in
  frame self self' ∧ skipped_products self' = skipped_products self
  ∧ quiet (trace self) (trace self')
  ∧ (all_records self = [] → partial_file self' = partial_file self).
Proof.
  induction urls as [|url urls IH]; intros records self; simpl.
  - split_and!; [apply frame_refl | done | apply quiet_refl | done].
  - pose proof (scrape_single_product_frame w s url self) as (F & S & Q & P).
    destruct (_scrape_single_product w s url self) as [result self1].
    simpl in *.
    destruct (IH (records ++ result) self1) as (F' & S' & Q' & P').
    split_and!.
    + by eapply frame_trans.
    + congruence.
    + by eapply quiet_trans.
    + intros Hnil. rewrite P', P; [done..|].
      destruct F as (_ & _ & _ & _ & _ & _ & <- & _). done.
Qed.

Lemma scrape_each_counts w s urls : ∀ records self,
  incremental self = false ∨ save_interval self ≠ 0%Z →
  let self' := (scrape_each w s urls records self).2 in
  (_products_processed self' - _products_processed self
   + (failed_products self' - failed_products self))%Z
  = Z.of_nat (length urls).
Proof.
  induction urls as [|url urls IH]; intros records self Hk; simpl; [lia|].
  pose proof (scrape_single_product_counts w s url self Hk) as Hc.
  pose proof (scrape_single_product_frame w s url self) as (F & _).
  simpl in Hc.
  destruct (_scrape_single_product w s url self) as [result self1].
  simpl in *.
  assert (Hk1 : incremental self1 = false ∨ save_interval self1 ≠ 0%Z).
  { destruct F as (_ & _ & _ & <- & <- & _). done. }
  specialize (IH (records ++ result) self1 Hk1). simpl in IH.
  destruct (Strategy.scrape_product _ _ _ _ _).1.1; lia.
Qed.

Lemma as_completed_length w urls : length (as_completed w urls) = length urls.
Proof. unfold as_completed. by rewrite merge_sort_Permutation. Qed.

Lemma dispatch_frame w s urls self r self' :
  dispatch w s urls self = (r, self') →
  frame self self' ∧ skipped_products self' = skipped_products self
  ∧ quiet (trace self) (trace self')
  ∧ (all_records self = [] → partial_file self' = partial_file self).
Proof.
  unfold dispatch. intros H.
  destruct (Strategy.requires_browser s).
  - pose proof (scrape_each_frame w s urls [] self) as Hf.
    destruct (scrape_each w s urls [] self). by simplify_eq.
  - destruct (max_workers self <=? 0)%Z.
    + simplify_eq. split_and!; [apply frame_refl | done | apply quiet_refl | done].
    + pose proof (scrape_each_frame w s (as_completed w urls) [] self) as Hf.
      destruct (scrape_each w s (as_completed w urls) [] self). by simplify_eq.
Qed.

Lemma dispatch_counts w s urls self :
  incremental self = false ∨ save_interval self ≠ 0%Z →
  Strategy.requires_browser s = true ∨ (0 < max_workers self)%Z →
  ∃ records self',
    dispatch w s urls self = (Ret records, self')
    ∧ (_products_processed self' - _products_processed self
       + (failed_products self' - failed_products self))%Z
      = Z.of_nat (length urls).
Proof.
  intros Hk Hpool. unfold dispatch.
  destruct (Strategy.requires_browser s) eqn:Eb.
  - pose proof (scrape_each_counts w s urls [] self Hk) as Hc.
    destruct (scrape_each w s urls [] self) as [records self'].
    by exists records, self'.
  - destruct Hpool as [?|Hpool]; [done|].
    destruct (max_workers self <=? 0)%Z eqn:Em; [lia|].
    pose proof (scrape_each_counts w s (as_completed w urls) [] self Hk) as Hc.
    destruct (scrape_each w s (as_completed w urls) [] self) as [records self'].
    exists records, self'. split; [done|].
    simpl in Hc. by rewrite as_completed_length in Hc.
Qed.

(** C10, as stated, fails when the manager is built with
    [save_interval = 0] and incremental saving on: the fetch returns a
    record, the processed count goes up, the modulo raises, and the
    handler counts the same product as failed and returns no record. *)
Lemma zero_interval_counts_a_product_twice :
  let w := Examples.shop_world 1 None in
  let self := init Examples.shop 5 true true 0 in
  let s := RequestsStrategy (3 # 10) in
  let url := Examples.product 1 in
  (Strategy.scrape_product w s url (rate_limiter self) (trace self)).1.1
  = [[("product_url", url)]]
  ∧ (_scrape_single_product w s url self).1 = []
  ∧ _products_processed (_scrape_single_product w s url self).2 = 1%Z
  ∧ failed_products (_scrape_single_product w s url self).2 = 1%Z.
Proof. by vm_compute. Qed.

(** C10, amended: when incremental saving is off or [save_interval] is
    not zero, [_scrape_single_product] returns the fetched records and adds
    one to the processed count when the fetch returns records, and returns
    the empty list and adds one to the failed count when it returns none,
    the other counter staying as it was; and a dispatch (which completes
    for a browser strategy, and for a pool with at least one worker) leaves
    the two counters increased, together, by the number of URLs
    dispatched. *)
Theorem each_product_processed_or_failed (w : World) (s : ScrapingStrategy)
    (self : ScrapeManager) :
  incremental self = false ∨ save_interval self ≠ 0%Z →
  (∀ url,
     let fetched :=
       (Strategy.scrape_product w s url (rate_limiter self) (trace self)).1.1 in
     let out := _scrape_single_product w s url self in
     match fetched with
     | _ :: _ =>
         out.1 = fetched
         ∧ _products_processed out.2 = (_products_processed self + 1)%Z
         ∧ failed_products out.2 = failed_products self
     | [] =>
         out.1 = []
         ∧ _products_processed out.2 = _products_processed self
         ∧ failed_products out.2 = (failed_products self + 1)%Z
     end)
  ∧ (∀ urls,
       Strategy.requires_browser s = true ∨ (0 < max_workers self)%Z →
       ∃ records self',
         dispatch w s urls self = (Ret records, self')
         ∧ (_products_processed self' - _products_processed self
            + (failed_products self' - failed_products self))%Z
           = Z.of_nat (length urls)).
Proof.
  intros Hk. split.
  - intros url. by apply scrape_single_product_counts.
  - intros urls Hpool. by apply dispatch_counts.
Qed.

Lemma each_product_processed_or_failed_witness :
  let w := Examples.shop_world 2 None in
  let s := RequestsStrategy (3 # 10) in
  let self := new Examples.shop in
  (incremental self = false ∨ save_interval self ≠ 0%Z)
  ∧ ∃ records self',
      dispatch w s [Examples.product 1; Examples.product 2] self
      = (Ret records, self')
      ∧ (_products_processed self' - _products_processed self
         + (failed_products self' - failed_products self))%Z = 2%Z.
Proof.
  intros w s self.
  assert (Hk : incremental self = false ∨ save_interval self ≠ 0%Z)
    by (right; discriminate).
  split; [exact Hk|].
  apply (proj2 (each_product_processed_or_failed w s self Hk)
           [Examples.product 1; Examples.product 2]).
  right. reflexivity.
Defined.

(** *** The skip-set *)

Lemma skip_existing_urls_spec cands self :
  coherent self →
  let out := skip_existing_urls cands self in
  out.1 = cands ∖ existing_urls self
  ∧ skipped_products out.2 = Z.of_nat (size (cands ∩ existing_urls self))
  ∧ frame self out.2 ∧ trace out.2 = trace self
  ∧ partial_file out.2 = partial_file self
  ∧ coherent out.2.
Proof.
  intros Hc. pose proof Hc as [Hskip Hzero]. unfold skip_existing_urls.
  assert (Hno : existing_urls self = ∅ →
    cands = cands ∖ existing_urls self
    ∧ skipped_products self = Z.of_nat (size (cands ∩ existing_urls self))).
  { intros He. rewrite (Hzero He), He.
    by rewrite difference_empty_L, intersection_empty_r_L. }
  destruct (skip_existing self) eqn:Es; simpl.
  - case_bool_decide as He; simpl.
    + destruct (Hno He) as [H1 H2].
      split_and!; [done | done | apply frame_refl | done..].
    + split_and!; [done | | done | done | done |].
      * rewrite size_difference_alt.
        assert (size (cands ∩ existing_urls self) ≤ size cands)
          by (apply subseteq_size, intersection_subseteq_l).
        lia.
      * split; simpl; [congruence | done].
  - destruct (Hno (Hskip eq_refl)) as [H1 H2].
    split_and!; [done | done | apply frame_refl | done..].
Qed.

Lemma urls_to_scrape_spec w s self :
  coherent self →
  let candidates :=
    (collect_product_urls w s (collection_urls (site self)) ∅ (trace self)).1 in
  let out := urls_to_scrape w s self in
  out.1 = candidates ∖ existing_urls self
  ∧ skipped_products out.2 = Z.of_nat (size (candidates ∩ existing_urls self))
  ∧ frame self out.2 ∧ quiet (trace self) (trace out.2)
  ∧ partial_file out.2 = partial_file self
  ∧ coherent out.2.
Proof.
  intros Hc. unfold urls_to_scrape.
  pose proof (collect_product_urls_quiet w s (collection_urls (site self)) ∅
                (trace self)) as Hq.
  destruct (collect_product_urls _ _ _ _ _) as [cands tr]. simpl in *.
  destruct (skip_existing_urls_spec cands (set_trace self tr))
    as (H1 & H2 & H3 & H4 & H5 & H6); [done|].
  split_and!; try done. by rewrite H4.
Qed.

Lemma sorted_length (X : gset string) : length (sorted X) = size X.
Proof. unfold sorted. by rewrite merge_sort_Permutation. Qed.

Lemma skip_existing_urls_frame cands self :
  let out := skip_existing_urls cands self in
  frame self out.2 ∧ trace out.2 = trace self
  ∧ partial_file out.2 = partial_file self.
Proof.
  unfold skip_existing_urls.
  destruct (_ && _); simpl; split_and!; done || apply frame_refl.
Qed.

Lemma run_with_strategy_frame w s self r self' :
  _run_with_strategy w s self = (r, self') →
  frame self self' ∧ quiet (trace self) (trace self')
  ∧ (all_records self = [] → partial_file self' = partial_file self).
Proof.
  unfold _run_with_strategy, urls_to_scrape.
  pose proof (collect_product_urls_quiet w s (collection_urls (site self)) ∅
                (trace self)) as Q.
  destruct (collect_product_urls _ _ _ _ _) as [cands tr]. simpl in Q.
  destruct (skip_existing_urls_frame cands (set_trace self tr)) as (F & T & P).
  destruct (skip_existing_urls cands (set_trace self tr)) as [urls self1].
  simpl in *. rewrite <- T in Q.
  case_bool_decide.
  - intros ?; simplify_eq. done.
  - intros Hd. apply dispatch_frame in Hd as (F' & S' & Q' & P').
    split_and!.
    + by eapply frame_trans.
    + by eapply quiet_trans.
    + intros Hnil. rewrite P', P; [done|].
      destruct F as (_ & _ & _ & _ & _ & _ & <- & _). done.
Qed.

Lemma run_with_strategy_coherent w s self r self' :
  coherent self → _run_with_strategy w s self = (r, self') → coherent self'.
Proof.
  intros Hc. unfold _run_with_strategy.
  destruct (urls_to_scrape_spec w s self Hc) as (_ & _ & _ & _ & _ & C).
  destruct (urls_to_scrape w s self) as [urls self1]. simpl in *.
  case_bool_decide.
  - intros ?; by simplify_eq.
  - intros Hd. apply dispatch_frame in Hd as (F' & S' & _).
    destruct C as [C1 C2].
    destruct F' as (_ & _ & E1 & _ & _ & _ & _ & _ & E2).
    split; rewrite <- ?E1, <- ?E2, ?S'; done.
Qed.

(** C6: with [candidates] the set collected from the listing pages (M
    URLs) and [overlap] the number of them found in the skip-set
    [existing_urls] (K), the strategy attempt hands exactly M - K URLs to
    the dispatch and sets [skipped_products] to K. *)
Theorem skip_set_subtracted (w : World) (s : ScrapingStrategy)
    (self : ScrapeManager) :
  coherent self →
  let candidates :=
    (collect_product_urls w s (collection_urls (site self)) ∅ (trace self)).1 in
  let overlap := size (candidates ∩ existing_urls self) in
  ∃ to_scrape self',
    urls_to_scrape w s self = (to_scrape, self')
    ∧ length (sorted to_scrape) = size candidates - overlap
    ∧ skipped_products self' = Z.of_nat overlap
    ∧ _run_with_strategy w s self
      = if bool_decide (to_scrape = ∅) then (Ret [], self')
        else dispatch w s (sorted to_scrape) self'.
Proof.
  intros Hc candidates overlap.
  destruct (urls_to_scrape_spec w s self Hc) as (H1 & H2 & _).
  unfold _run_with_strategy.
  destruct (urls_to_scrape w s self) as [to_scrape self']. simpl in *.
  exists to_scrape, self'. split_and!; try done.
  rewrite sorted_length, H1. apply size_difference_alt.
Qed.

Lemma skip_set_subtracted_witness :
  let w := Examples.shop_world 3 None in
  let s := RequestsStrategy (3 # 10) in
  let self := set_existing_urls (new Examples.shop)
                {[Examples.product 1; Examples.product 7]} in
  coherent self
  ∧ ∃ to_scrape self',
      urls_to_scrape w s self = (to_scrape, self')
      ∧ length (sorted to_scrape) = 2
      ∧ skipped_products self' = 1%Z.
Proof.
  intros w s self.
  assert (Hc : coherent self).
  { split; [discriminate|]. intros H. by vm_compute in H. }
  split; [exact Hc|].
  destruct (skip_set_subtracted w s self Hc) as (ts & self' & H1 & H2 & H3 & _).
  exists ts, self'. split; [exact H1|]. split.
  - rewrite H2. by vm_compute.
  - rewrite H3. by vm_compute.
Defined.

(** *** The strategy loop *)

Lemma cleanup_state w s self : (cleanup w s self).2 = log (EvCleanup s) self.
Proof. unfold cleanup. by repeat case_match. Qed.

Lemma cleanup_outcome w s self r self' :
  cleanup w s self = (r, self') → self' = log (EvCleanup s) self.
Proof. intros H. by rewrite <- (cleanup_state w s self), H. Qed.

Lemma cleanup_returns w s self :
  Strategy.requires_browser s = false ∨ browser_close w = None →
  cleanup w s self = (Ret tt, log (EvCleanup s) self).
Proof.
  unfold cleanup. intros [H|H]; destruct s; simpl in *; try done;
    rewrite ?H; by repeat case_match.
Qed.

Lemma cleanup_result w s a b :
  trace a = trace b → (cleanup w s a).1 = (cleanup w s b).1.
Proof. unfold cleanup. intros ->. by repeat case_match. Qed.

Lemma loop_at_suffix w viable self0 todo self :
  loop_at w viable self0 todo self → ∃ tried, viable = tried ++ todo.
Proof.
  induction 1 as [|s rest self r self' self'' _ [tried ->] _ _ _].
  - by exists [].
  - exists (tried ++ [s]). by rewrite <- app_assoc.
Qed.

Lemma try_strategies_cons w strategy rest b self :
  try_strategies w (strategy :: rest) b self
  = match _run_with_strategy w strategy (log (EvAttempt strategy) self) with
    | (Ret (r :: records), self) =>
        match cleanup w strategy
                (set_all_records (set_strategy_used self (Some strategy))
                   (r :: records)) with
        | (Raise e, self) => (Raise e, self)
        | (Ret _, self) => (Ret true, self)
        end
    | (Ret [], self) | (Raise _, self) =>
        match cleanup w strategy self with
        | (Raise e, self) => (Raise e, self)
        | (Ret _, self) => try_strategies w rest true self
        end
    end.
Proof. done. Qed.

Lemma loop_at_try_strategies w viable self0 todo self :
  loop_at w viable self0 todo self →
  ∀ b0, ∃ b, try_strategies w viable b0 self0 = try_strategies w todo b self.
Proof.
  induction 1 as [|s rest self r self' self'' _ IH Hrun Hun Hcl]; intros b0.
  - by exists b0.
  - destruct (IH b0) as [b ->]. exists true.
    rewrite try_strategies_cons, Hrun.
    destruct r as [[|]|]; [|done|]; by rewrite Hcl.
Qed.

Lemma loop_at_invariant w viable self0 todo self :
  coherent self0 → all_records self0 = [] →
  loop_at w viable self0 todo self →
  coherent self ∧ all_records self = []
  ∧ strategy_used self = strategy_used self0
  ∧ site self = site self0
  ∧ partial_file self = partial_file self0.
Proof.
  intros Hc Ha.
  induction 1
    as [|s rest self r self' self'' _ (C & A & S & St & P) Hrun Hun Hcl];
    [done|].
  apply cleanup_outcome in Hcl. subst self''.
  pose proof Hrun as Hco. apply run_with_strategy_coherent in Hco; [|done].
  apply run_with_strategy_frame in Hrun
    as ((F1 & _ & _ & _ & _ & _ & F7 & F8 & _) & _ & P').
  simpl in *. split_and!; try congruence; [done|].
  rewrite P' by done. done.
Qed.

Lemma log_environment_spec w self :
  ∃ r p tr, log_environment w self = (r, set_trace (set_env self p) tr)
            ∧ quiet (trace self) tr
            ∧ (Probe.import_guarded w → r = Ret tt).
Proof.
  unfold log_environment.
  pose proof (playwright_available_guarded w (env self)) as G1.
  destruct (Probe.playwright_available w (env self)) as [[b|e] p].
  - pose proof (browser_available_guarded w p (trace self)) as G2.
    pose proof (browser_available_quiet w p (trace self)) as Hq.
    destruct (Probe.browser_available w p (trace self)) as [[[b'|e] p'] tr];
      simpl in *.
    + by exists (Ret tt), p', tr.
    + exists (Raise e), p', tr. split_and!; [done..|].
      intros Hg. by destruct (G2 Hg).
  - exists (Raise e), p, (trace self).
    split_and!; [by destruct self | apply quiet_refl |].
    intros Hg. by destruct (G1 Hg).
Qed.

Lemma get_viable_strategies_spec w todo : ∀ self,
  ∃ r p tr,
    get_viable_strategies w todo self = (r, set_trace (set_env self p) tr)
    ∧ quiet (trace self) tr
    ∧ (Probe.import_guarded w → ∃ viable, r = Ret viable).
Proof.
  induction todo as [|s todo IH]; intros self; simpl.
  - exists (Ret []), (env self), (trace self).
    split_and!; [by destruct self | apply quiet_refl | by eexists].
  - assert (∃ r p tr, Strategy.supports w s (env self) (trace self)
                      = (r, p, tr) ∧ quiet (trace self) tr
                      ∧ (Probe.import_guarded w → ∃ ok, r = Ret ok))
      as (r & p & tr & -> & Hq & Hg).
    { destruct s; simpl.
      - eexists _, _, _. split_and!; [done | apply quiet_refl | by eexists].
      - pose proof (browser_available_guarded w (env self) (trace self)) as G.
        pose proof (browser_available_quiet w (env self) (trace self)) as Hq.
        destruct (Probe.browser_available w (env self) (trace self))
          as [[r p] tr]. simpl in *. by eexists _, _, _. }
    destruct r as [ok|e].
    + destruct (IH (set_trace (set_env self p) tr))
        as (r' & p' & tr' & -> & Hq' & Hg').
      destruct r' as [viable|e].
      * eexists _, p', tr'. split_and!; [done | by eapply quiet_trans |].
        by eexists.
      * exists (Raise e), p', tr'.
        split_and!; [done | by eapply quiet_trans |].
        intros Hi. by destruct (Hg' Hi).
    + exists (Raise e), p, tr. split_and!; [done..|].
      intros Hi. by destruct (Hg Hi).
Qed.

Lemma before_loop_spec w self :
  ∃ r base p tr,
    before_loop w self = (r, set_trace (set_env base p) tr)
    ∧ (base = self ∨ base = set_existing_urls self (_load_existing_urls w))
    ∧ (∀ viable, r = Ret viable →
       base = if skip_existing self
              then set_existing_urls self (_load_existing_urls w)
              else self)
    ∧ quiet (trace self) tr
    ∧ (Probe.import_guarded w → ∃ viable, r = Ret viable).
Proof.
  unfold before_loop.
  destruct (log_environment_spec w self) as (r & p & tr & -> & Hq & Hg).
  destruct r as [[]|e].
  - destruct (get_viable_strategies_spec w
                (strategies (site (if skip_existing (set_trace (set_env self p) tr)
                 then set_existing_urls (set_trace (set_env self p) tr)
                        (_load_existing_urls w)
                 else set_trace (set_env self p) tr)))
                (if skip_existing (set_trace (set_env self p) tr)
                 then set_existing_urls (set_trace (set_env self p) tr)
                        (_load_existing_urls w)
                 else set_trace (set_env self p) tr))
      as (r' & p' & tr' & Hv & Hq' & Hg').
    rewrite Hv. simpl in *.
    exists r', (if skip_existing self
                then set_existing_urls self (_load_existing_urls w)
                else self), p', tr'.
    split_and!.
    + by destruct (skip_existing self).
    + destruct (skip_existing self); auto.
    + done.
    + eapply quiet_trans; [done|]. by destruct (skip_existing self).
    + done.
  - exists (Raise e), self, p, tr. split_and!; [done | by left | done | done |].
    intros Hi. by specialize (Hg Hi).
Qed.

(** What [run] leaves alone before the loop, however that part ends. *)
Lemma before_loop_keeps w self :
  all_records (before_loop w self).2 = all_records self
  ∧ strategy_used (before_loop w self).2 = strategy_used self
  ∧ partial_file (before_loop w self).2 = partial_file self
  ∧ quiet (trace self) (trace (before_loop w self).2).
Proof.
  destruct (before_loop_spec w self) as (r & base & p & tr & -> & Hb & _ & Hq & _).
  by destruct Hb as [-> | ->].
Qed.

Lemma before_loop_fresh w self viable self1 :
  fresh self → before_loop w self = (Ret viable, self1) →
  coherent self1 ∧ all_records self1 = [] ∧ strategy_used self1 = None
  ∧ partial_file self1 = None ∧ site self1 = site self
  ∧ quiet (trace self) (trace self1).
Proof.
  intros (A & S & E & K & P) H.
  destruct (before_loop_spec w self) as (r & base & p & tr & Hb & _ & Hbase & Hq & _).
  rewrite Hb in H. simplify_eq. rewrite (Hbase viable eq_refl).
  destruct (skip_existing self) eqn:Es; simpl;
    (split_and!; try done); split; simpl; congruence.
Qed.

(** Every strategy attempt of a run on a newly built manager starts in a
    coherent state. *)
Lemma run_attempts_are_coherent w self0 viable self1 todo self :
  fresh self0 → before_loop w self0 = (Ret viable, self1) →
  loop_at w viable self1 todo self → coherent self.
Proof.
  intros Hf Hb Hl.
  destruct (before_loop_fresh w self0 _ _ Hf Hb) as (C & A & _).
  by destruct (loop_at_invariant w viable self1 todo self C A Hl).
Qed.

Lemma loop_at_attempts w viable self0 todo self :
  loop_at w viable self0 todo self →
  ∃ tried, viable = tried ++ todo
           ∧ attempts (trace self) = attempts (trace self0) ++ tried.
Proof.
  induction 1 as [|s rest self r self' self'' _ (tried & -> & IH) Hrun _ Hcl].
  - exists []. by rewrite app_nil_r.
  - exists (tried ++ [s]). split; [by rewrite <- app_assoc|].
    apply cleanup_outcome in Hcl. subst self''.
    apply run_with_strategy_frame in Hrun as (_ & Q & _).
    apply quiet_attempts in Q. unfold log in *.
    cbn [trace set_trace] in *.
    by rewrite attempts_cons, Q, attempts_cons, IH, app_nil_r, app_assoc.
Qed.

(** C4: in a run in which the strategy loop comes to a strategy whose
    [_run_with_strategy] returns at least one record, that strategy is
    recorded as the one used, [all_records] holds its records, and the
    strategies attempted in the run are those tried before it and itself:
    none of the viable strategies that come after it is attempted.  The
    run then returns those records, unless the clean-up of the strategy or
    the closing of the client raises, which leaves the run with that
    exception and the same state. *)
Theorem first_productive_strategy_wins (w : World) (self0 : ScrapeManager)
    (viable : list ScrapingStrategy) (self1 : ScrapeManager)
    (strategy : ScrapingStrategy) (rest : list ScrapingStrategy)
    (self : ScrapeManager) (r : Dict) (records : list Dict)
    (self' : ScrapeManager) :
  before_loop w self0 = (Ret viable, self1) →
  loop_at w viable self1 (strategy :: rest) self →
  _run_with_strategy w strategy (log (EvAttempt strategy) self)
  = (Ret (r :: records), self') →
  ∃ final tried,
    viable = tried ++ strategy :: rest
    ∧ run w self0
      = (match (cleanup w strategy self').1 with
         | Raise e => Raise e
         | Ret _ =>
             match client_close w with
             | Some e => Raise e
             | None => Ret (r :: records)
             end
         end, final)
    ∧ strategy_used final = Some strategy
    ∧ all_records final = r :: records
    ∧ attempts (trace final) = attempts (trace self0) ++ tried ++ [strategy].
Proof.
  intros Hb Hl Hrun. unfold run. rewrite Hb.
  destruct (loop_at_attempts _ _ _ _ _ Hl) as (tried & Hv & Hat).
  destruct (loop_at_try_strategies _ _ _ _ _ Hl false) as [b Ht].
  assert (H01 : attempts (trace self1) = attempts (trace self0)).
  { destruct (before_loop_keeps w self0) as (_ & _ & _ & Q).
    rewrite Hb in Q. by apply quiet_attempts in Q. }
  destruct viable as [|v vs]; [by destruct tried|].
  rewrite Ht, try_strategies_cons, Hrun.
  apply run_with_strategy_frame in Hrun as (_ & Q & _).
  apply quiet_attempts in Q. unfold log in Q. cbn [trace set_trace] in Q.
  rewrite attempts_cons in Q.
  set (won := set_all_records (set_strategy_used self' (Some strategy))
                (r :: records)).
  assert (Hres : (cleanup w strategy won).1 = (cleanup w strategy self').1)
    by (by apply cleanup_result).
  pose proof (cleanup_state w strategy won) as Hst.
  destruct (cleanup w strategy won) as [c final]. simpl in Hres, Hst.
  rewrite <- Hres. subst final.
  assert (Hat' : attempts (trace (log (EvCleanup strategy) won))
                 = attempts (trace self0) ++ tried ++ [strategy]).
  { unfold log, won.
    cbn [trace set_trace set_all_records set_strategy_used].
    by rewrite attempts_cons, Q, Hat, H01, app_nil_r, app_assoc. }
  destruct c as [[]|e].
  - unfold finish.
    assert (E : is_empty (all_records (log (EvCleanup strategy) won)) = false)
      by reflexivity.
    rewrite E. cbn [negb orb].
    destruct (client_close w) as [e|]; eexists _, tried;
      (split_and!; [done | reflexivity | done | done |]);
      unfold log; cbn [trace set_trace]; rewrite attempts_cons;
      unfold log in Hat'; cbn [trace set_trace] in Hat';
      by rewrite Hat', app_nil_r.
  - eexists _, tried. split_and!; [done | reflexivity | done | done |].
    exact Hat'.
Qed.

Lemma first_productive_strategy_wins_witness :
  let w := Examples.slow_browser 2 in
  let self0 := new Examples.shop_both_ways in
  let browser := PlaywrightStrategy 10 60000 in
  let s := RequestsStrategy (3 # 10) in
  let viable := [browser; s; RequestsStrategy 1] in
  ∃ self1 self r records self',
    before_loop w self0 = (Ret viable, self1)
    ∧ loop_at w viable self1 [s; RequestsStrategy 1] self
    ∧ _run_with_strategy w s (log (EvAttempt s) self)
      = (Ret (r :: records), self')
    ∧ ∃ final,
        run w self0 = (Ret (r :: records), final)
        ∧ strategy_used final = Some s
        ∧ all_records final = r :: records
        ∧ attempts (trace final) = [browser; s].
Proof.
  intros w self0 browser s viable.
  set (self1 := (before_loop w self0).2).
  assert (Hb : before_loop w self0 = (Ret viable, self1)).
  { apply injective_projections; [by vm_compute | reflexivity]. }
  set (tried := _run_with_strategy w browser (log (EvAttempt browser) self1)).
  assert (H1 : tried = (Ret [], tried.2)).
  { apply injective_projections; [by vm_compute | reflexivity]. }
  set (self := (cleanup w browser tried.2).2).
  assert (Hc : cleanup w browser tried.2 = (Ret tt, self)).
  { apply injective_projections; [by vm_compute | reflexivity]. }
  assert (Hl : loop_at w viable self1 [s; RequestsStrategy 1] self).
  { eapply loop_next; [apply loop_start | exact H1 | exact I | exact Hc]. }
  destruct (_run_with_strategy w s (log (EvAttempt s) self))
    as [[[|r records]|e] self'] eqn:Hrun;
    [by vm_compute in Hrun | | by vm_compute in Hrun].
  exists self1, self, r, records, self'.
  split; [exact Hb|]. split; [exact Hl|]. split; [exact Hrun|].
  destruct (first_productive_strategy_wins w self0 viable self1 s
              [RequestsStrategy 1] self r records self' Hb Hl Hrun)
    as (final & tried' & Hv & Hr & Hs & Ha & Hat).
  exists final. split; [exact Hr|]. split; [exact Hs|]. split; [exact Ha|].
  rewrite Hat. clear -Hv.
  assert (Hlen : length tried' = 1).
  { apply (f_equal length) in Hv. rewrite length_app in Hv.
    unfold viable in Hv. simpl in Hv. lia. }
  destruct tried' as [|t [|t' tried']]; [discriminate Hlen | | discriminate Hlen].
  injection Hv as <-. reflexivity.
Defined.

Lemma try_strategies_unproductive w viable self1 :
  browser_close w = None →
  (∀ strategy rest self r self',
     loop_at w viable self1 (strategy :: rest) self →
     _run_with_strategy w strategy (log (EvAttempt strategy) self) = (r, self') →
     unproductive r) →
  ∀ todo self b,
    loop_at w viable self1 todo self →
    all_records self = [] → strategy_used self = None →
    ∃ final,
      try_strategies w todo b self = (Ret (b || negb (is_empty todo)), final)
      ∧ all_records final = []
      ∧ strategy_used final = None
      ∧ attempts (trace final) = attempts (trace self) ++ todo.
Proof.
  intros Hclose H. induction todo as [|s todo IH]; intros self b Hl Ha Hs.
  { exists self. simpl. by rewrite app_nil_r, orb_false_r. }
  rewrite try_strategies_cons.
  destruct (_run_with_strategy w s (log (EvAttempt s) self)) as [r self'] eqn:E.
  pose proof (H _ _ _ _ _ Hl E) as Hun.
  pose proof (cleanup_returns w s self' (or_intror Hclose)) as Hcl.
  pose proof (loop_next _ _ _ _ _ _ _ _ _ Hl E Hun Hcl) as Hl'.
  apply run_with_strategy_frame in E
    as ((_ & _ & _ & _ & _ & _ & F7 & F8 & _) & Q & _).
  apply quiet_attempts in Q. unfold log in Q. cbn [trace set_trace] in Q.
  rewrite attempts_cons in Q.
  destruct (IH (log (EvCleanup s) self') true Hl') as (final & G0 & G1 & G2 & G3);
    [simpl in *; congruence..|].
  assert (G : ∃ final,
    try_strategies w todo true (log (EvCleanup s) self')
    = (Ret (b || negb (is_empty (s :: todo))), final)
    ∧ all_records final = [] ∧ strategy_used final = None
    ∧ attempts (trace final) = attempts (trace self) ++ s :: todo).
  { exists final. rewrite orb_true_r. split_and!; [done..|].
    rewrite G3. unfold log. cbn [trace set_trace].
    rewrite attempts_cons, Q, app_nil_r. by rewrite <- app_assoc. }
  destruct r as [[|]|]; [|done|]; by rewrite Hcl.
Qed.

(** C5, as stated, fails where a call that [run] makes outside its [try]
    raises.  In each of the first three runs the one viable strategy
    finds a product, extracts no record from it and returns the empty
    list; then the failure summary is printed to a console that cannot
    encode it, or the client fails to close, or (with the browser
    strategy) the browser fails to close in the [finally] clause, and the
    exception leaves [run].  In the fourth the import of the library
    raises something else than ImportError while the environment is
    logged. *)
Lemma calls_outside_try_can_raise :
  let encode := OtherError "UnicodeEncodeError" in
  let closed := OtherError "Connection closed" in
  let s := RequestsStrategy (3 # 10) in
  let b := PlaywrightStrategy 10 60000 in
  let attempt w site_profile s :=
    _run_with_strategy w s
      (log (EvAttempt s) (before_loop w (new site_profile)).2) in
  (let w := Examples.empty_pages 1 None (Some encode) None in
   (before_loop w (new Examples.shop)).1 = Ret [s]
   ∧ (attempt w Examples.shop s).1 = Ret []
   ∧ failed_products (attempt w Examples.shop s).2 = 1%Z
   ∧ (run w (new Examples.shop)).1 = Raise encode)
  ∧ (let w := Examples.empty_pages 1 None None (Some closed) in
     (attempt w Examples.shop s).1 = Ret []
     ∧ (run w (new Examples.shop)).1 = Raise closed)
  ∧ (let w := Examples.empty_pages 1 (Some closed) None None in
     (before_loop w (new Examples.shop_in_browser)).1 = Ret [b]
     ∧ (attempt w Examples.shop_in_browser b).1 = Ret []
     ∧ (run w (new Examples.shop_in_browser)).1 = Raise closed)
  ∧ (run Examples.broken_install (new Examples.shop)).1
    = Raise (OtherError "SyntaxError").
Proof. split_and!; by vm_compute. Qed.

(** C5, amended: on a newly built manager, whatever its configuration,
    provided the calls that [run] makes outside its [try] return (the
    import of the library binds the name or raises ImportError, closing
    the browser, printing the messages and closing the client do not
    raise): if every attempt the strategy loop makes ends without a
    record (an empty list or an exception), in particular if no strategy
    is viable, then [run] returns normally with the empty list,
    [all_records] is empty, no winning strategy is recorded, every viable
    strategy has been attempted in priority order, and the run ends on
    the no-strategy message or on the failure summary. *)
Theorem no_results_without_raising (w : World) (site_profile : SiteProfile)
    (workers : Z) (skip incr : bool) (interval : Z) :
  let self0 := init site_profile workers skip incr interval in
  Probe.import_guarded w → browser_close w = None →
  console w = None → client_close w = None →
  (∀ viable self1 strategy rest self r self',
     before_loop w self0 = (Ret viable, self1) →
     loop_at w viable self1 (strategy :: rest) self →
     _run_with_strategy w strategy (log (EvAttempt strategy) self) = (r, self') →
     unproductive r) →
  ∃ viable self1 final tr,
    before_loop w self0 = (Ret viable, self1)
    ∧ run w self0 = (Ret [], final)
    ∧ all_records final = []
    ∧ strategy_used final = None
    ∧ attempts (trace final) = viable
    ∧ (viable = [] ∧ trace final = EvNoStrategyMessage :: tr
       ∨ viable ≠ [] ∧ trace final = EvSummary :: EvFailureSummary :: tr).
Proof.
  intros self0 Hg Hclose Hcons Hcli H. unfold run.
  destruct (before_loop_spec w self0)
    as (r & base & p & tr & Hb & _ & Hbase & Q & Hret).
  destruct (Hret Hg) as [viable ->]. rewrite (Hbase viable eq_refl) in Hb.
  clear Hbase Hret.
  set (self1 := set_trace _ tr) in Hb.
  assert (Ha1 : all_records self1 = []) by (subst self1 self0; by destruct skip).
  assert (Hs1 : strategy_used self1 = None)
    by (subst self1 self0; by destruct skip).
  assert (Ht1 : attempts (trace self1) = []) by (by apply quiet_attempts in Q).
  pose proof (λ strategy rest self r self',
              H viable self1 strategy rest self r self' Hb) as H'.
  rewrite Hb. exists viable, self1. destruct viable as [|v vs].
  - unfold display. rewrite Hcons.
    eexists _, _. split_and!; [done | reflexivity | done | done | | by left].
    unfold log. cbn [trace set_trace]. by rewrite attempts_cons, Ht1.
  - destruct (try_strategies_unproductive w _ _ Hclose H' (v :: vs) _ false
                (loop_start _ _ _) Ha1 Hs1) as (final & -> & Ha & Hs & Hat').
    unfold finish, display. cbn [negb orb is_empty].
    rewrite Ha. cbn [is_empty]. rewrite Hcons, Hcli.
    change (all_records (log EvSummary (log EvFailureSummary final)))
      with (all_records final).
    rewrite Ha.
    eexists _, _.
    split_and!; [done | reflexivity | done | done | | by right].
    unfold log. cbn [trace set_trace].
    by rewrite !attempts_cons, Hat', Ht1, !app_nil_r.
Qed.

(** Where the callback finds nothing on any page, no attempt brings a
    record. *)
Lemma requests_loop_barren w url remaining : ∀ attempt rl tr,
  (∀ html product_url, extract_fn w html product_url = Ret []) →
  (Strategy.requests_loop w url attempt remaining rl tr).1.1 = [].
Proof.
  induction remaining as [|n IH]; intros attempt rl tr He; [done|]. simpl.
  destruct (Strategy.requests_attempt w url attempt rl tr)
    as [[[recs|] rl1] tr1] eqn:E; simpl; [|by apply IH].
  revert E.
  unfold Strategy.requests_attempt, Strategy.requests_try,
    Strategy.requests_except.
  intros E. repeat case_match; simplify_eq; try done.
  all: by rewrite He in *.
Qed.

Lemma scrape_single_product_barren w s url self :
  (∀ html product_url, extract_fn w html product_url = Ret []) →
  (_scrape_single_product w s url self).1 = [].
Proof.
  intros He. unfold _scrape_single_product, scrape_single_try.
  assert (Hp : (Strategy.scrape_product w s url (rate_limiter self)
                  (trace self)).1.1 = []).
  { destruct s; unfold Strategy.scrape_product.
    - by apply requests_loop_barren.
    - unfold Strategy.playwright_scrape_product.
      destruct (page_content w url); [|done]. rewrite He.
      by destruct (wait _ _) as [[]]. }
  destruct (Strategy.scrape_product _ _ _ _ _) as [[recs rl] tr].
  simpl in Hp. by subst recs.
Qed.

Lemma scrape_each_barren w s urls : ∀ records self,
  (∀ html product_url, extract_fn w html product_url = Ret []) →
  (scrape_each w s urls records self).1 = records.
Proof.
  induction urls as [|url urls IH]; intros records self He; [done|]. simpl.
  pose proof (scrape_single_product_barren w s url self He) as Hs.
  destruct (_scrape_single_product w s url self) as [result self1].
  simpl in Hs. subst result. rewrite IH by done. by rewrite app_nil_r.
Qed.

Lemma run_with_strategy_barren w s self :
  (∀ html product_url, extract_fn w html product_url = Ret []) →
  unproductive (_run_with_strategy w s self).1.
Proof.
  intros He. unfold _run_with_strategy.
  destruct (urls_to_scrape w s self) as [urls self1].
  case_bool_decide; [done|]. unfold dispatch.
  destruct (Strategy.requires_browser s).
  - pose proof (scrape_each_barren w s (sorted urls) [] self1 He) as Hs.
    destruct (scrape_each _ _ _ _ _). simpl in *. by subst.
  - destruct (max_workers self1 <=? 0)%Z; [done|].
    pose proof (scrape_each_barren w s (as_completed w (sorted urls)) []
                  self1 He) as Hs.
    destruct (scrape_each _ _ _ _ _). simpl in *. by subst.
Qed.

Lemma no_results_without_raising_witness :
  let w := Examples.empty_pages 2 None None None in
  let site_profile := Examples.shop_both_ways in
  let self0 := init site_profile 5 true true 25 in
  (∀ viable self1 strategy rest self r self',
     before_loop w self0 = (Ret viable, self1) →
     loop_at w viable self1 (strategy :: rest) self →
     _run_with_strategy w strategy (log (EvAttempt strategy) self) = (r, self') →
     unproductive r)
  ∧ failed_products (run w self0).2 = 6%Z
  ∧ ∃ viable self1 final tr,
      before_loop w self0 = (Ret viable, self1)
      ∧ run w self0 = (Ret [], final)
      ∧ all_records final = []
      ∧ strategy_used final = None
      ∧ attempts (trace final) = viable
      ∧ (viable = [] ∧ trace final = EvNoStrategyMessage :: tr
         ∨ viable ≠ [] ∧ trace final = EvSummary :: EvFailureSummary :: tr).
Proof.
  intros w site_profile self0.
  assert (H : ∀ viable self1 strategy rest self r self',
     before_loop w self0 = (Ret viable, self1) →
     loop_at w viable self1 (strategy :: rest) self →
     _run_with_strategy w strategy (log (EvAttempt strategy) self) = (r, self') →
     unproductive r).
  { intros viable self1 strategy rest self r self' _ _ Hrun.
    pose proof (run_with_strategy_barren w strategy
                  (log (EvAttempt strategy) self) (λ _ _, eq_refl)) as Hs.
    by rewrite Hrun in Hs. }
  split; [exact H|]. split; [by vm_compute|].
  apply (no_results_without_raising w site_profile 5 true true 25);
    [intros e He; discriminate | reflexivity | reflexivity | reflexivity
    | exact H].
Defined.

(** *** The checkpoint file *)

Lemma try_strategies_partial_file w todo : ∀ self b,
  all_records self = [] →
  partial_file (try_strategies w todo b self).2 = partial_file self.
Proof.
  induction todo as [|s todo IH]; intros self b Ha; [done|].
  rewrite try_strategies_cons.
  destruct (_run_with_strategy w s (log (EvAttempt s) self)) as [r self'] eqn:E.
  apply run_with_strategy_frame in E
    as ((_ & _ & _ & _ & _ & _ & F7 & _) & _ & P).
  simpl in *. specialize (P Ha).
  assert (G : ∀ self2, partial_file self2 = partial_file self →
              all_records self2 = [] →
              partial_file
                (match cleanup w s self2 with
                 | (Raise e, self) => (Raise e, self)
                 | (Ret _, self) => try_strategies w todo true self
                 end).2 = partial_file self).
  { intros self2 Hp Ha2. pose proof (cleanup_state w s self2) as Hst.
    destruct (cleanup w s self2) as [[[]|e] self3]; simpl in Hst; subst self3.
    - by rewrite IH.
    - done. }
  destruct r as [[|rec records]|e]; [by apply G; congruence | | by apply G; congruence].
  pose proof (cleanup_state w s
                (set_all_records (set_strategy_used self' (Some s))
                   (rec :: records))) as Hst.
  destruct (cleanup w s _) as [[[]|e] self3]; simpl in Hst; by subst self3.
Qed.

(** A run on a newly built manager never writes the [.partial] file:
    [_incremental_save] reads [all_records], which [run] assigns only
    after the winning strategy has returned. *)
Lemma run_never_writes_partial_file w self0 :
  fresh self0 → partial_file (run w self0).2 = None.
Proof.
  intros (A & _ & _ & _ & P). unfold run.
  destruct (before_loop_keeps w self0) as (A1 & _ & P1 & _).
  rewrite A in A1. rewrite P in P1.
  destruct (before_loop w self0) as [[viable|e] self1]; simpl in *; [|done].
  destruct viable as [|v vs].
  { unfold display. by destruct (console w). }
  pose proof (try_strategies_partial_file w (v :: vs) self1 false A1) as Hp.
  destruct (try_strategies w (v :: vs) false self1) as [[attempted|e] final];
    simpl in Hp |- *; [|congruence].
  unfold finish, display.
  destruct (negb attempted || _); destruct (console w);
    destruct (client_close w); simpl; congruence.
Qed.

(** C1: with the default interval of 25, a run in which 50 products are
    scraped successfully (one record each) ends with a processed count of
    50 and 50 records, and has written no checkpoint at all. *)
Theorem checkpoint_missing_after_50_products :
  let out := run (Examples.shop_world 50 None) (new Examples.shop) in
  incremental out.2 = true
  ∧ save_interval out.2 = 25%Z
  ∧ _products_processed out.2 = 50%Z
  ∧ (∃ records, out.1 = Ret records ∧ length records = 50)
  ∧ partial_file out.2 = None.
Proof.
  split_and!; try by vm_compute.
  eexists. split; by vm_compute.
Qed.

End manager_facts.
